(** * The window registry of the desktop shell (WindowManager.tsx)

    A shallow embedding of the state held by [WindowManagerProvider] and of
    the eight operations it hands to its descendants, followed by the
    properties of the registry: focus exclusivity, stacking order, the frame
    of each operation and what the operations report to the observability
    hooks.

    Modelling conventions.
    - [useState] cells become the fields of one [State] record; a callback
      that calls [setWindows] / [setTopZIndex] / [setWindowOpenTimes] with an
      updater becomes a function from [State] to the next [State].
    - A sequence of operations is the sequence of their updates in the
      order in which the provider applies them to the window list. That is
      the order of the calls when each call is made in its own render.
      Calls made within one event can be applied in another order:
      [openWindow], [restoreWindow] and [focusWindow] queue their window
      update from inside the counter update, the other operations queue it
      directly. The order among the three raising operations, which is the
      order in which the counter is stepped, is kept either way.
    - The calls into [useSentryMetrics] and [useSentryBreadcrumbs] are the
      only outputs of an operation; they are collected, in program order, in
      a list of [Event]s returned next to the state.
    - [Date.now()] is an input of the operations that read the clock.
    - A JavaScript [number] is modelled by [Z]: the stacking counter starts
      at 100 and only ever has 1 added to it, so it stays an exact integer
      for as long as it is below 2^53; geometry values are only stored.
    - The two [useEffect] blocks only read [windows] (active-window gauge,
      replay context); they change nothing and are left out. *)

From Stdlib Require Import ZArith List Bool Lia Permutation.
From stdpp Require Import gmap strings.
Import ListNotations.

Local Open Scope Z_scope.

(** ** Data model *)

(** Modelled from the spec: the declaration of [WindowState] (./types) is
    not part of the sources at hand; the fields are the ones the spec lists
    for a Window, which are also the ones WindowManager.tsx reads and
    writes. *)
Record WindowState : Type := mkWindowState {
  id : string;
  title : string;
  appType : string;
  x : Z;
  y : Z;
  width : Z;
  height : Z;
  zIndex : Z;
  isMinimized : bool;
  isMaximized : bool;
  isFocused : bool
}.

(** The argument of [openWindow]: [Omit<WindowState, 'zIndex' | 'isFocused'>].
    The caller supplies every other field, the two flags included. *)
Record WindowInit : Type := mkWindowInit {
  in_id : string;
  in_title : string;
  in_appType : string;
  in_x : Z;
  in_y : Z;
  in_width : Z;
  in_height : Z;
  in_isMinimized : bool;
  in_isMaximized : bool
}.

(** Object spread with one overridden field, [{ ...w, f: v }]. *)
Definition set_isFocused (b : bool) (w : WindowState) : WindowState :=
  mkWindowState (id w) (title w) (appType w) (x w) (y w) (width w) (height w)
                (zIndex w) (isMinimized w) (isMaximized w) b.

Definition set_isMinimized (b : bool) (w : WindowState) : WindowState :=
  mkWindowState (id w) (title w) (appType w) (x w) (y w) (width w) (height w)
                (zIndex w) b (isMaximized w) (isFocused w).

Definition set_isMaximized (b : bool) (w : WindowState) : WindowState :=
  mkWindowState (id w) (title w) (appType w) (x w) (y w) (width w) (height w)
                (zIndex w) (isMinimized w) b (isFocused w).

Definition set_zIndex (z : Z) (w : WindowState) : WindowState :=
  mkWindowState (id w) (title w) (appType w) (x w) (y w) (width w) (height w)
                z (isMinimized w) (isMaximized w) (isFocused w).

Definition set_xy (x' y' : Z) (w : WindowState) : WindowState :=
  mkWindowState (id w) (title w) (appType w) x' y' (width w) (height w)
                (zIndex w) (isMinimized w) (isMaximized w) (isFocused w).

Definition set_size (width' height' : Z) (w : WindowState) : WindowState :=
  mkWindowState (id w) (title w) (appType w) (x w) (y w) width' height'
                (zIndex w) (isMinimized w) (isMaximized w) (isFocused w).

(** [{ ...window, zIndex: newZ, isFocused: true }] for the argument of
    [openWindow]. *)
Definition spawn (window : WindowInit) (newZ : Z) : WindowState :=
  mkWindowState (in_id window) (in_title window) (in_appType window)
                (in_x window) (in_y window) (in_width window)
                (in_height window) newZ (in_isMinimized window)
                (in_isMaximized window) true.

(** The three [useState] cells of the provider. *)
Record State : Type := mkState {
  windows : list WindowState;
  topZIndex : Z;
  windowOpenTimes : gmap string Z
}.

(** [useState([])], [useState(100)], [useState({})]. *)
Definition initial : State := mkState [] 100 ∅.

(** The calls an operation makes into the observability hooks, named after
    the hook functions. *)
Inductive Event : Type :=
| trackWindowOpen (windowId : string)
| logWindowOpen (windowId title : string)
| trackWindowClose (windowId : string) (lifetime : Z)
| logWindowClose (windowId title : string)
| trackWindowMinimize (windowId : string)
| logWindowMinimize (windowId title : string)
| trackWindowMaximize (windowId : string) (willBeMaximized : bool)
| logWindowMaximize (windowId title : string) (willBeMaximized : bool)
| trackWindowFocus (windowId : string)
| logWindowFocus (windowId title : string).

(** ** Operations *)

(** [w.id === i] *)
Definition has_id (i : string) (w : WindowState) : bool := String.eqb (id w) i.

(** [prev.find(w => w.id === i)] *)
Definition find_window (i : string) (prev : list WindowState)
  : option WindowState :=
  List.find (has_id i) prev.

(** The updater shared by [restoreWindow] and by [openWindow] on a minimized
    window:
    [w.id === i ? { ...w, isMinimized: false, isFocused: true, zIndex: newZ }
                : { ...w, isFocused: false }]. *)
Definition raise_restored (i : string) (newZ : Z) (w : WindowState)
  : WindowState :=
  if has_id i w
  then set_zIndex newZ (set_isFocused true (set_isMinimized false w))
  else set_isFocused false w.

(** The updater shared by [focusWindow] and by [openWindow] on a visible
    window:
    [w.id === i ? { ...w, isFocused: true, zIndex: newZ }
                : { ...w, isFocused: false }]. *)
Definition raise_focused (i : string) (newZ : Z) (w : WindowState)
  : WindowState :=
  if has_id i w
  then set_zIndex newZ (set_isFocused true w)
  else set_isFocused false w.

Definition openWindow (now : Z) (window : WindowInit) (s : State)
  : State * list Event :=
  let newZ := topZIndex s + 1 in
  let prev := windows s in
  match find_window (in_id window) prev with
  | Some existing =>
      if isMinimized existing
      then (mkState (List.map (raise_restored (in_id window) newZ) prev)
                    newZ (windowOpenTimes s),
            [logWindowOpen (in_id window) (in_title window)])
      else (mkState (List.map (raise_focused (in_id window) newZ) prev)
                    newZ (windowOpenTimes s),
            [])
  | None =>
      (mkState (List.map (set_isFocused false) prev ++ [spawn window newZ])
               newZ
               (<[in_id window := now]> (windowOpenTimes s)),
       [trackWindowOpen (in_id window);
        logWindowOpen (in_id window) (in_title window)])
  end.

(** [windowOpenTimes[id]] used as a condition: defined and not 0. *)
Definition open_time (i : string) (times : gmap string Z) : option Z :=
  match times !! i with
  | Some t => if Z.eqb t 0 then None else Some t
  | None => None
  end.

(** [closeWindow] as built by a render that has seen the current
    [windowOpenTimes]: the callback is rebuilt whenever that table changes
    (it is in the dependency list of its [useCallback]), so this is a close
    called in a later render than the last change of the table. The test
    [windowOpenTimes[id]] and the lifetime read the table the callback
    captured; [closeWindow_from] below takes that table as an argument and
    covers a close called before the render has caught up. The windows kept
    are [prev.filter(w => w.id !== i)] on both paths, whatever the table. *)
Definition closeWindow (now : Z) (i : string) (s : State)
  : State * list Event :=
  let prev := windows s in
  let kept := List.filter (fun w => negb (has_id i w)) prev in
  match find_window i prev, open_time i (windowOpenTimes s) with
  | Some window, Some t =>
      (mkState kept (topZIndex s) (delete i (windowOpenTimes s)),
       [trackWindowClose (id window) (now - t);
        logWindowClose (id window) (title window)])
  | _, _ => (mkState kept (topZIndex s) (windowOpenTimes s), [])
  end.

Definition minimizeWindow (i : string) (s : State) : State * list Event :=
  let prev := windows s in
  (mkState
     (List.map (fun w => if has_id i w
                         then set_isFocused false (set_isMinimized true w)
                         else w) prev)
     (topZIndex s) (windowOpenTimes s),
   match find_window i prev with
   | Some window => [trackWindowMinimize (id window);
                     logWindowMinimize (id window) (title window)]
   | None => []
   end).

Definition maximizeWindow (i : string) (s : State) : State * list Event :=
  let prev := windows s in
  (mkState
     (List.map (fun w => if has_id i w
                         then set_isMaximized (negb (isMaximized w)) w
                         else w) prev)
     (topZIndex s) (windowOpenTimes s),
   match find_window i prev with
   | Some window =>
       let willBeMaximized := negb (isMaximized window) in
       [trackWindowMaximize (id window) willBeMaximized;
        logWindowMaximize (id window) (title window) willBeMaximized]
   | None => []
   end).

Definition restoreWindow (i : string) (s : State) : State * list Event :=
  let newZ := topZIndex s + 1 in
  (mkState (List.map (raise_restored i newZ) (windows s))
           newZ (windowOpenTimes s),
   []).

Definition focusWindow (i : string) (s : State) : State * list Event :=
  let newZ := topZIndex s + 1 in
  let prev := windows s in
  (mkState (List.map (raise_focused i newZ) prev) newZ (windowOpenTimes s),
   match find_window i prev with
   | Some window => [trackWindowFocus (id window);
                     logWindowFocus (id window) (title window)]
   | None => []
   end).

Definition updateWindowPosition (i : string) (x' y' : Z) (s : State)
  : State * list Event :=
  (mkState (List.map (fun w => if has_id i w then set_xy x' y' w else w)
                     (windows s))
           (topZIndex s) (windowOpenTimes s),
   []).

Definition updateWindowSize (i : string) (width' height' : Z) (s : State)
  : State * list Event :=
  (mkState (List.map (fun w => if has_id i w
                               then set_size width' height' w else w)
                     (windows s))
           (topZIndex s) (windowOpenTimes s),
   []).

(** ** The registry as a transition system *)

(** One call through the write surface of the context. *)
Inductive Op : Type :=
| Open (now : Z) (window : WindowInit)
| Close (now : Z) (i : string)
| Minimize (i : string)
| Maximize (i : string)
| Restore (i : string)
| Focus (i : string)
| UpdatePosition (i : string) (x' y' : Z)
| UpdateSize (i : string) (width' height' : Z).

Definition step (o : Op) (s : State) : State * list Event :=
  match o with
  | Open now window => openWindow now window s
  | Close now i => closeWindow now i s
  | Minimize i => minimizeWindow i s
  | Maximize i => maximizeWindow i s
  | Restore i => restoreWindow i s
  | Focus i => focusWindow i s
  | UpdatePosition i x' y' => updateWindowPosition i x' y' s
  | UpdateSize i width' height' => updateWindowSize i width' height' s
  end.

Definition next (o : Op) (s : State) : State := fst (step o s).

Definition emitted (o : Op) (s : State) : list Event := snd (step o s).

(** The updates of a sequence of operations, applied one after the other
    in the order of the list. *)
Definition run (ops : list Op) (s : State) : State :=
  fold_left (fun st o => next o st) ops s.

(** States reachable from the initial one when every update satisfies
    [ok] in the state it is applied to. *)
Inductive reachable_when (ok : State -> Op -> bool) : State -> Prop :=
| reach_initial : reachable_when ok initial
| reach_next s o :
    reachable_when ok s -> ok s o = true -> reachable_when ok (next o s).

(** No discipline at all: any sequence of the eight operations. *)
Definition any_call (_ : State) (_ : Op) : bool := true.

Definition reachable : State -> Prop := reachable_when any_call.

(** [ok] holds along a whole sequence of calls. *)
Fixpoint all_ok (ok : State -> Op -> bool) (ops : list Op) (s : State)
  : bool :=
  match ops with
  | [] => true
  | o :: ops' => ok s o && all_ok ok ops' (next o s)
  end.

(** ** Observations *)

Definition registered (i : string) (s : State) : Prop :=
  In i (List.map id (windows s)).

(** The number of windows with [isFocused = true]. *)
Definition focused_count (ws : list WindowState) : nat :=
  length (List.filter isFocused ws).

(** The window an [Open], [Restore] or [Focus] raises, when it finds or
    creates one. *)
Definition raised (o : Op) (s : State) : option string :=
  match o with
  | Open _ window => Some (in_id window)
  | Restore i | Focus i =>
      match find_window i (windows s) with
      | Some _ => Some i
      | None => None
      end
  | _ => None
  end.

(** No window is minimized and focused at once. *)
Definition minimized_never_focused (s : State) : Prop :=
  forall w, In w (windows s) -> isMinimized w && isFocused w = false.

(** A condition on an update and the state it is applied to: a window is
    created visible, and the update of [focusWindow] does not meet its
    target minimized. *)
Definition careful_call (s : State) (o : Op) : bool :=
  match o with
  | Open _ window =>
      match find_window (in_id window) (windows s) with
      | Some _ => true
      | None => negb (in_isMinimized window)
      end
  | Focus i =>
      match find_window i (windows s) with
      | Some w => negb (isMinimized w)
      | None => true
      end
  | _ => true
  end.

(** A condition on the call alone, which no order of application can
    break: no [focusWindow], and every [openWindow] carries
    [isMinimized = false]. *)
Definition order_free_call (o : Op) : bool :=
  match o with
  | Open _ window => negb (in_isMinimized window)
  | Focus _ => false
  | _ => true
  end.




(** An operation is a no-op when it returns the state it was given. *)
Definition silent_noop (o : Op) (s : State) : Prop := next o s = s.

(** The id an operation other than [Open] is aimed at. *)
Definition target (o : Op) : option string :=
  match o with
  | Open _ _ => None
  | Close _ i | Minimize i | Maximize i | Restore i | Focus i
  | UpdatePosition i _ _ | UpdateSize i _ _ => Some i
  end.

(** Opening and then closing an unregistered id gives back the windows there
    were, and a counter that is not smaller. *)
Definition open_close_round_trip
  (s : State) (now : Z) (window : WindowInit) (now' : Z) : Prop :=
  let s' := next (Close now' (in_id window)) (next (Open now window) s) in
  windows s' = windows s /\ topZIndex s <= topZIndex s'.

(** The "opened" breadcrumb of [logWindowOpen]. *)
Definition opened_notification (e : Event) : bool :=
  match e with
  | logWindowOpen _ _ => true
  | _ => false
  end.

(** The "desktop.window.open" metric of [trackWindowOpen]. *)
Definition open_metric (e : Event) : bool :=
  match e with
  | trackWindowOpen _ => true
  | _ => false
  end.

(** The "opened" notification goes out exactly when the id is new. *)
Definition opened_iff_new (s : State) (now : Z) (window : WindowInit) : Prop :=
  existsb opened_notification (emitted (Open now window) s) = true
  <-> find_window (in_id window) (windows s) = None.

(** Two records that agree on everything but [isMaximized]. *)
Definition same_but_isMaximized (w w' : WindowState) : Prop :=
  id w' = id w /\ title w' = title w /\ appType w' = appType w
  /\ x w' = x w /\ y w' = y w /\ width w' = width w /\ height w' = height w
  /\ zIndex w' = zIndex w /\ isMinimized w' = isMinimized w
  /\ isFocused w' = isFocused w.

(** Two records that agree on everything but [isMinimized], [isFocused] and
    [zIndex]. *)
Definition same_but_stacking (w w' : WindowState) : Prop :=
  id w' = id w /\ title w' = title w /\ appType w' = appType w
  /\ x w' = x w /\ y w' = y w /\ width w' = width w /\ height w' = height w
  /\ isMaximized w' = isMaximized w.

(** ** Further observations on the registry *)

(** The operations that call [setTopZIndex]. *)
Definition takes_stacking_value (o : Op) : bool :=
  match o with
  | Open _ _ | Restore _ | Focus _ => true
  | _ => false
  end.

(** [windows.filter(w => !w.isMinimized).length], the value both
    [useEffect] blocks report as the number of active windows. *)
Definition active_count (ws : list WindowState) : nat :=
  length (List.filter (fun w => negb (isMinimized w)) ws).

(** One entry of [window.__WINDOW_MANAGER_STATE__.windows], the copy of the
    registry the second [useEffect] publishes. *)
Record WindowSnapshot : Type := mkWindowSnapshot {
  snap_id : string;
  snap_title : string;
  snap_isMinimized : bool;
  snap_isMaximized : bool;
  snap_isFocused : bool;
  snap_position : Z * Z;
  snap_size : Z * Z
}.

Definition snapshot (w : WindowState) : WindowSnapshot :=
  mkWindowSnapshot (id w) (title w) (isMinimized w) (isMaximized w)
                   (isFocused w) (x w, y w) (width w, height w).

(** [windows.map(w => ({ id: w.id, ... }))] *)
Definition published (s : State) : list WindowSnapshot :=
  List.map snapshot (windows s).

(** [event.contexts.desktop] as [beforeSend] fills it in from the published
    copy: [windows?.length || 0] and [windows?.find(w => w.isFocused)?.id]. *)
Definition beforeSend_desktop (ws : list WindowSnapshot) : nat * option string :=
  (length ws, option_map snap_id (List.find snap_isFocused ws)).

(** A clock that has left 0: every [Date.now()] read by an [openWindow] is
    a non-zero number. *)
Definition clock_runs (_ : State) (o : Op) : bool :=
  match o with
  | Open now _ => negb (Z.eqb now 0)
  | _ => true
  end.


(** Two records that agree on everything but [isMinimized] and
    [isFocused]. *)
Definition same_but_visibility (w w' : WindowState) : Prop :=
  id w' = id w /\ title w' = title w /\ appType w' = appType w
  /\ x w' = x w /\ y w' = y w /\ width w' = width w /\ height w' = height w
  /\ zIndex w' = zIndex w /\ isMaximized w' = isMaximized w.

(** Two records that agree on everything but [x] and [y]. *)
Definition same_but_position (w w' : WindowState) : Prop :=
  id w' = id w /\ title w' = title w /\ appType w' = appType w
  /\ width w' = width w /\ height w' = height w /\ zIndex w' = zIndex w
  /\ isMinimized w' = isMinimized w /\ isMaximized w' = isMaximized w
  /\ isFocused w' = isFocused w.

(** ** The registry invariant *)

(** Ids are unique, no stacking value exceeds the counter, stacking values
    are unique, and at most one window is focused. *)
Record well_stacked (s : State) : Prop := {
  ws_ids : List.NoDup (List.map id (windows s));
  ws_bound : Forall (fun w => zIndex w <= topZIndex s) (windows s);
  ws_z : List.NoDup (List.map zIndex (windows s));
  ws_focus : (focused_count (windows s) <= 1)%nat
}.

(** ** Sample inputs *)

Definition sample (i : string) : WindowInit :=
  mkWindowInit i "Notes" "notes" 40 60 640 480 false false.

Definition opened_abc : list Op :=
  [Open 1000 (sample "a"); Open 2000 (sample "b"); Open 3000 (sample "c")].

(** * The observability helpers and the chat route

    A JavaScript string is a sequence of code units; [string] plays that
    role, one character per code unit. *)

(** ** useSentryBreadcrumbs: the chat breadcrumb *)

Module Breadcrumbs.

(** [messageContent.length > 100
       ? messageContent.substring(0, 100) + '...' : messageContent] *)
Definition truncated (messageContent : string) : string :=
  if Nat.ltb 100 (String.length messageContent)
  then String.substring 0 100 messageContent +:+ "..."
  else messageContent.

(** The [data] of the breadcrumb of [logChatMessageSent]. *)
Record ChatMessageSent : Type := mkChatMessageSent {
  message_preview : string;
  message_length : nat
}.

Definition logChatMessageSent (messageContent : string) : ChatMessageSent :=
  mkChatMessageSent (truncated messageContent) (String.length messageContent).

End Breadcrumbs.

(** ** sentry-utils.ts *)

Module SentryUtils.

(** [v || d] on the result of [headers.get]: [null] and the empty string
    are falsy. *)
Definition or_else (v : option string) (d : string) : string :=
  match v with
  | Some s => if String.eqb s "" then d else s
  | None => d
  end.

(** [v || undefined] *)
Definition or_undefined (v : option string) : option string :=
  match v with
  | Some s => if String.eqb s "" then None else Some s
  | None => None
  end.

Record SessionContext : Type := mkSessionContext {
  user_agent : string;
  referer : string;
  session_id : option string;
  user_id : option string
}.

(** [get] is [request.headers.get]. *)
Definition extractSessionContext (get : string -> option string)
  : SessionContext :=
  mkSessionContext (or_else (get "user-agent") "unknown")
                   (or_else (get "referer") "none")
                   (or_undefined (get "x-session-id"))
                   (or_undefined (get "x-user-id")).

(** [Object.entries] of the object [extractSessionContext] returns, in
    property order; a property holding [undefined] is still an entry. *)
Definition entries (c : SessionContext) : list (string * option string) :=
  [("user_agent", Some (user_agent c)); ("referer", Some (referer c));
   ("session_id", session_id c); ("user_id", user_id c)].

(** [if (value) Sentry.setTag(key, value)], the tags of the scope being a
    table from tag name to value. *)
Definition set_if_truthy (tags : gmap string string)
                         (entry : string * option string)
  : gmap string string :=
  match snd entry with
  | Some value => if String.eqb value "" then tags
                  else <[fst entry := value]> tags
  | None => tags
  end.

Definition setRequestContext (requestId : string)
                             (context : list (string * option string))
                             (tags : gmap string string)
  : gmap string string :=
  fold_left set_if_truthy context (<["request_id" := requestId]> tags).

End SentryUtils.

(** ** app/api/chat/route.ts *)

Module ChatRoute.

Definition SYSTEM_PROMPT : string := "You are a helpful personal assistant designed to help with general research, questions, and tasks.

Your role is to:
- Answer questions on any topic accurately and thoroughly
- Help with research by searching the web for current information
- Assist with writing, editing, and brainstorming
- Provide explanations and summaries of complex topics
- Help solve problems and think through decisions

Guidelines:
- Be friendly, clear, and conversational
- Use web search when you need current information, facts you're unsure about, or real-time data
- Keep responses concise but complete - expand when the topic warrants depth
- Use markdown formatting when it helps readability (bullet points, code blocks, etc.)
- Be honest when you don't know something and offer to search for answers".

(** The line feed of the template literals. *)
Definition nl : string := String (Ascii.ascii_of_nat 10) EmptyString.

Record MessageInput : Type := mkMessageInput {
  role : string;
  content : string
}.

(** What [await request.json()] and the destructuring of [messages] give,
    once the elements of the array have been read as [MessageInput]
    records: an exception, or [messages] as it fares in
    [!messages || !Array.isArray(messages)] ([None] when that test is
    true). [Request] and [POST_request] below start from the array as JSON
    delivers it, where an element can be [null]. *)
Inductive Body : Type :=
| unreadable
| json (messages : option (list MessageInput)).

(** The JSON error responses: status and the [error] field of the body. *)
Record Response : Type := mkResponse {
  status : Z;
  error : string
}.

(** An error response, or the streaming response with the prompt handed to
    [query] and the [has_context] tag of the prompt-length metric. *)
Inductive Outcome : Type :=
| reject (r : Response)
| stream (fullPrompt : string) (has_context : bool).

(** [m.role === 'user'] *)
Definition is_user (m : MessageInput) : bool := String.eqb (role m) "user".

(** [messages.filter(m => m.role === 'user').pop()] *)
Definition lastUserMessage (messages : list MessageInput)
  : option MessageInput :=
  List.last (List.map Some (List.filter is_user messages)) None.

(** [`${m.role === 'user' ? 'User' : 'Assistant'}: ${m.content}`] *)
Definition line (m : MessageInput) : string :=
  (if is_user m then "User" else "Assistant") +:+ ": " +:+ content m.

(** [messages.slice(0, -1).map(...).join('\n\n')] *)
Definition conversationContext (messages : list MessageInput) : string :=
  String.concat (nl +:+ nl) (List.map line (List.removelast messages)).

Definition fullPrompt (messages : list MessageInput) (last : MessageInput)
  : string :=
  let context := conversationContext messages in
  if String.eqb context ""
  then SYSTEM_PROMPT +:+ nl +:+ nl +:+ "User: " +:+ content last
  else SYSTEM_PROMPT +:+ nl +:+ nl +:+ "Previous conversation:" +:+ nl
       +:+ context +:+ nl +:+ nl +:+ "User: " +:+ content last.

(** The part of [POST] that runs before the stream is created. *)
Definition POST (body : Body) : Outcome :=
  match body with
  | unreadable =>
      reject (mkResponse 500
        "Failed to process chat request. Check server logs for details.")
  | json None => reject (mkResponse 400 "Messages array is required")
  | json (Some messages) =>
      match lastUserMessage messages with
      | None => reject (mkResponse 400 "No user message found")
      | Some last =>
          stream (fullPrompt messages last)
                 (negb (String.eqb (conversationContext messages) ""))
      end
  end.

(** An element of the [messages] array as JSON delivers it. On [null] the
    access [m.role] throws. Any other value is read through its [role] and
    [content]: [role] is what [m.role] holds when that is a string (a
    missing role, or one that is not a string, compares unequal to 'user'
    like any other string and is read as the empty string), and [content]
    is the text the template literal renders for [m.content]. *)
Inductive Element : Type :=
| null_element
| element (m : MessageInput).

(** The elements as records, unless one of them is [null]. *)
Fixpoint read_elements (elements : list Element)
  : option (list MessageInput) :=
  match elements with
  | [] => Some []
  | null_element :: _ => None
  | element m :: rest =>
      match read_elements rest with
      | Some messages => Some (m :: messages)
      | None => None
      end
  end.



(** *** The messages of the agent query, as far as the handler reads them *)

Inductive Delta : Type :=
| text_delta (text : string)
| other_delta.

(** [event.type === 'content_block_delta'] with [event.delta], which may be
    missing ([event.delta?.type]). *)
Inductive StreamEvent : Type :=
| content_block_delta (delta : option Delta)
| other_event.

Inductive ContentBlock : Type :=
| tool_use (name tool_id : string)
| other_block.

(** [assistant] carries [message.content] when it is an array. *)
Inductive SDKMessage : Type :=
| stream_event (event : StreamEvent)
| assistant (blocks : option (list ContentBlock))
| tool_progress (tool_name : string) (elapsed_time_seconds : Z)
| result (subtype : string)
| other_message.

(** What [controller.enqueue] is given: the object serialized after
    [data: ], or the closing [data: [DONE]]. *)
Inductive Frame : Type :=
| text_frame (text : string)
| tool_start_frame (tool : string)
| tool_progress_frame (tool : string) (elapsed : Z)
| done_frame
| error_frame (message : string)
| DONE_marker.

(** The logger and metric calls of the stream handler. A duration is kept
    as the difference of two clock readings, in milliseconds; the value
    reported is that difference divided by 1000. *)
Inductive Signal : Type :=
| tool_started_log (tool_name tool_id : string)
| tool_executions_metric (tool_name : string)
| tool_duration_metric (tool_name : string) (elapsed : Z)
| completed_log (duration_ms turn_count streamed_chunks : Z)
                (tools_used : list string)
| chat_duration_metric (duration_ms : Z)
| stream_chunks_metric (chunks : Z)
| query_failed_log (subtype : string)
| chat_errors_metric (error_type : string)
| stream_error_log (error_message : string)
| exception_captured (error_location : string).

Record ToolState : Type := mkToolState {
  start : Z;
  elapsed : option Z
}.

Record RequestState : Type := mkRequestState {
  requestId : string;
  startTime : Z;
  toolExecutions : list (string * ToolState);
  tokenUsage : Z * Z * Z;
  turnCount : Z;
  streamedChunks : Z
}.

(** The state a request starts with. *)
Definition new_request (requestId : string) (startTime : Z) : RequestState :=
  mkRequestState requestId startTime [] (0, 0, 0) 0 0.

(** A JavaScript [Map] keeps its keys in insertion order: [get], and [set],
    which overwrites in place or appends. *)
Fixpoint map_get (k : string) (m : list (string * ToolState))
  : option ToolState :=
  match m with
  | [] => None
  | (k', v) :: m' => if String.eqb k' k then Some v else map_get k m'
  end.

Fixpoint map_set (k : string) (v : ToolState) (m : list (string * ToolState))
  : list (string * ToolState) :=
  match m with
  | [] => [(k, v)]
  | (k', v') :: m' =>
      if String.eqb k' k then (k, v) :: m' else (k', v') :: map_set k v m'
  end.

(** [Array.from(requestState.toolExecutions.keys())] *)
Definition keys (m : list (string * ToolState)) : list string :=
  List.map fst m.

Definition with_tools (m : list (string * ToolState)) (st : RequestState)
  : RequestState :=
  mkRequestState (requestId st) (startTime st) m (tokenUsage st)
                 (turnCount st) (streamedChunks st).

(** What handling a message yields: the request state, the frames enqueued
    and the signals sent, each in program order. *)
Definition Handled : Type := RequestState * list Frame * list Signal.

(** One pass of [for (const block of content)]. *)
Definition on_block (now : Z) (acc : Handled) (block : ContentBlock)
  : Handled :=
  let '(st, frames, signals) := acc in
  match block with
  | tool_use name tool_id =>
      (with_tools (map_set name (mkToolState now None) (toolExecutions st)) st,
       frames ++ [tool_start_frame name],
       signals ++ [tool_started_log name tool_id;
                   tool_executions_metric name])
  | other_block => acc
  end.

(** The body of the [for await] loop for one message, [now] being the
    clock while it is handled (one reading per message; the [start] it is
    stored in is not read anywhere). A message has one [type], so at most
    one of the [if] blocks of the body applies to it. *)
Definition on_message (now : Z) (message : SDKMessage) (st : RequestState)
  : Handled :=
  match message with
  | stream_event (content_block_delta (Some (text_delta text))) =>
      (mkRequestState (requestId st) (startTime st) (toolExecutions st)
                      (tokenUsage st) (turnCount st) (streamedChunks st + 1),
       [text_frame text], [])
  | stream_event _ => (st, [], [])
  | assistant (Some blocks) => fold_left (on_block now) blocks (st, [], [])
  | assistant None => (st, [], [])
  | tool_progress tool_name elapsed_time_seconds =>
      match map_get tool_name (toolExecutions st) with
      | Some toolState =>
          (with_tools
             (map_set tool_name
                (mkToolState (start toolState) (Some elapsed_time_seconds))
                (toolExecutions st)) st,
           [tool_progress_frame tool_name elapsed_time_seconds],
           [tool_duration_metric tool_name elapsed_time_seconds])
      | None =>
          (st, [tool_progress_frame tool_name elapsed_time_seconds], [])
      end
  | result subtype =>
      if String.eqb subtype "success"
      then (st, [done_frame],
            [completed_log (now - startTime st) (turnCount st)
                           (streamedChunks st) (keys (toolExecutions st));
             chat_duration_metric (now - startTime st);
             stream_chunks_metric (streamedChunks st)])
      else (st, [error_frame "Query did not complete successfully"],
            [query_failed_log subtype; chat_errors_metric "query_failed"])
  | other_message => (st, [], [])
  end.

(** The [for await] loop over the messages the query yields, each with the
    clock at the time it is handled. *)
Fixpoint consume (messages : list (Z * SDKMessage)) (st : RequestState)
  : Handled :=
  match messages with
  | [] => (st, [], [])
  | (now, message) :: rest =>
      let '(st1, frames1, signals1) := on_message now message st in
      let '(st2, frames2, signals2) := consume rest st1 in
      (st2, frames1 ++ frames2, signals1 ++ signals2)
  end.

(** How the query ends: its iterator is exhausted, or it throws. *)
Inductive Ending : Type :=
| exhausted
| thrown (error_message : string).

(** [start(controller)]: the loop, then the closing frame of the [try] or
    of the [catch]. [controller.enqueue] is taken to succeed: a consumer
    that has gone away is not modelled. *)
Definition start_stream (messages : list (Z * SDKMessage)) (ending : Ending)
                        (st : RequestState) : Handled :=
  let '(st', frames, signals) := consume messages st in
  match ending with
  | exhausted => (st', frames ++ [DONE_marker], signals)
  | thrown error_message =>
      (st', frames ++ [error_frame "Stream error occurred"],
       signals ++ [stream_error_log error_message;
                   exception_captured "stream";
                   chat_errors_metric "stream_error"])
  end.

(** [text_delta] messages, success results and tool-start frames. *)
Definition is_text_delta (m : Z * SDKMessage) : bool :=
  match snd m with
  | stream_event (content_block_delta (Some (text_delta _))) => true
  | _ => false
  end.

Definition is_success (m : Z * SDKMessage) : bool :=
  match snd m with
  | result subtype => String.eqb subtype "success"
  | _ => false
  end.

Definition is_text_frame (f : Frame) : bool :=
  match f with
  | text_frame _ => true
  | _ => false
  end.

Definition is_done_frame (f : Frame) : bool :=
  match f with
  | done_frame => true
  | _ => false
  end.

(** The three components of what a handler yields. *)
Definition state_of (h : Handled) : RequestState := fst (fst h).

Definition frames_of (h : Handled) : list Frame := snd (fst h).

Definition signals_of (h : Handled) : list Signal := snd h.

(** The names of the [tool_use] blocks of a content array, in order. *)
Definition tool_names (blocks : list ContentBlock) : list string :=
  flat_map (fun block => match block with
                         | tool_use name _ => [name]
                         | other_block => []
                         end) blocks.

(** The two frames that can close a stream. *)
Definition is_closing_frame (f : Frame) : bool :=
  match f with
  | DONE_marker => true
  | error_frame message => String.eqb message "Stream error occurred"
  | _ => false
  end.

(** The frame that closes the stream. *)
Definition closing_frame (ending : Ending) : Frame :=
  match ending with
  | exhausted => DONE_marker
  | thrown _ => error_frame "Stream error occurred"
  end.

End ChatRoute.

(** ** Basic facts about lookup by id *)

Lemma has_id_true i w : has_id i w = true <-> id w = i.
Proof. unfold has_id. apply String.eqb_eq. Qed.

Lemma has_id_false i w : has_id i w = false <-> id w <> i.
Proof. unfold has_id. apply String.eqb_neq. Qed.

Lemma find_window_Some i l w :
  find_window i l = Some w -> In w l /\ id w = i.
Proof.
  unfold find_window. intros H. apply find_some in H.
  destruct H as [Hin Hid]. split; [exact Hin | now apply has_id_true].
Qed.

Lemma find_window_None i l :
  find_window i l = None <-> ~ In i (List.map id l).
Proof.
  unfold find_window. split.
  - intros H Hin. apply in_map_iff in Hin. destruct Hin as [w [Hid Hw]].
    pose proof (find_none _ _ H w Hw) as Hf.
    apply has_id_false in Hf. contradiction.
  - intros H. destruct (List.find (has_id i) l) as [w|] eqn:E; [|reflexivity].
    apply find_some in E. destruct E as [Hin Hid]. apply has_id_true in Hid.
    exfalso. apply H. apply in_map_iff. exists w. auto.
Qed.

Lemma find_window_registered i s :
  registered i s <-> exists w, find_window i (windows s) = Some w.
Proof.
  unfold registered. split.
  - intros H. destruct (find_window i (windows s)) as [w|] eqn:E.
    + now exists w.
    + apply find_window_None in E. contradiction.
  - intros [w E] . apply find_window_Some in E. destruct E as [Hin Hid].
    apply in_map_iff. exists w. auto.
Qed.

Lemma find_window_NoDup l w :
  List.NoDup (List.map id l) -> In w l -> find_window (id w) l = Some w.
Proof.
  unfold find_window. induction l as [|a l IH]; simpl; intros Hnd Hin.
  - contradiction.
  - inversion Hnd as [|? ? Hnotin Hnd']; subst.
    destruct Hin as [-> | Hin].
    + replace (has_id (id w) w) with true; [reflexivity|].
      symmetry. now apply has_id_true.
    + destruct (has_id (id w) a) eqn:E.
      * apply has_id_true in E. exfalso. apply Hnotin. rewrite E.
        now apply in_map.
      * now apply IH.
Qed.

Lemma map_unmatched (f : WindowState -> WindowState) i l :
  ~ In i (List.map id l) ->
  List.map (fun w => if has_id i w then f w else w) l = l.
Proof.
  induction l as [|a l IH]; simpl; intros H; [reflexivity|].
  destruct (has_id i a) eqn:E.
  - apply has_id_true in E. exfalso. apply H. now left.
  - f_equal. apply IH. intros Hin. apply H. now right.
Qed.

Lemma filter_unmatched i l :
  ~ In i (List.map id l) ->
  List.filter (fun w => negb (has_id i w)) l = l.
Proof.
  induction l as [|a l IH]; simpl; intros H; [reflexivity|].
  destruct (has_id i a) eqn:E; simpl.
  - apply has_id_true in E. exfalso. apply H. now left.
  - f_equal. apply IH. intros Hin. apply H. now right.
Qed.

(** ** Updaters that bring one window to the front *)

Section Raise.

Variable i : string.
Variable newZ : Z.
Variable F : WindowState -> WindowState.

Hypothesis F_id : forall w, id (F w) = id w.
Hypothesis F_hit :
  forall w, has_id i w = true -> zIndex (F w) = newZ /\ isFocused (F w) = true.
Hypothesis F_miss :
  forall w, has_id i w = false ->
            zIndex (F w) = zIndex w /\ isFocused (F w) = false.

Lemma raise_ids l : List.map id (List.map F l) = List.map id l.
Proof.
  rewrite List.map_map. apply List.map_ext. exact F_id.
Qed.

Lemma raise_miss_focus l :
  ~ In i (List.map id l) -> focused_count (List.map F l) = 0%nat.
Proof.
  unfold focused_count.
  induction l as [|a l IH]; simpl; intros H; [reflexivity|].
  assert (Ha : has_id i a = false).
  { apply has_id_false. intros E. apply H. now left. }
  destruct (F_miss a Ha) as [_ ->]. apply IH. intros Hin. apply H. now right.
Qed.

Lemma raise_focus l :
  List.NoDup (List.map id l) -> (focused_count (List.map F l) <= 1)%nat.
Proof.
  induction l as [|a l IH]; simpl; intros Hnd.
  - unfold focused_count. simpl. lia.
  - inversion Hnd as [|? ? Hnotin Hnd']; subst.
    unfold focused_count in *. simpl.
    destruct (has_id i a) eqn:E.
    + destruct (F_hit a E) as [_ ->]. simpl.
      apply has_id_true in E. rewrite E in Hnotin.
      pose proof (raise_miss_focus l Hnotin) as H0.
      unfold focused_count in H0. rewrite H0. lia.
    + destruct (F_miss a E) as [_ ->]. now apply IH.
Qed.

Lemma raise_z_in l v :
  In v (List.map zIndex (List.map F l)) ->
  v = newZ \/ In v (List.map zIndex l).
Proof.
  induction l as [|a l IH]; simpl; intros H; [contradiction|].
  destruct H as [H | H].
  - destruct (has_id i a) eqn:E.
    + destruct (F_hit a E) as [Hz _]. left. congruence.
    + destruct (F_miss a E) as [Hz _]. right. left. congruence.
  - destruct (IH H) as [? | ?]; auto.
Qed.

Lemma raise_miss_z l :
  ~ In i (List.map id l) ->
  List.map zIndex (List.map F l) = List.map zIndex l.
Proof.
  induction l as [|a l IH]; simpl; intros H; [reflexivity|].
  assert (Ha : has_id i a = false).
  { apply has_id_false. intros E. apply H. now left. }
  destruct (F_miss a Ha) as [-> _]. f_equal. apply IH.
  intros Hin. apply H. now right.
Qed.

Lemma raise_z_bound top l :
  top <= newZ ->
  Forall (fun w => zIndex w <= top) l ->
  Forall (fun w => zIndex w <= newZ) (List.map F l).
Proof.
  intros Hlt H. induction H as [|a l Ha Hl IH]; simpl; constructor; auto.
  destruct (has_id i a) eqn:E.
  - destruct (F_hit a E) as [-> _]. lia.
  - destruct (F_miss a E) as [-> _]. lia.
Qed.

Lemma raise_z_NoDup top l :
  top < newZ ->
  List.NoDup (List.map id l) ->
  Forall (fun w => zIndex w <= top) l ->
  List.NoDup (List.map zIndex l) ->
  List.NoDup (List.map zIndex (List.map F l)).
Proof.
  intros Hlt. induction l as [|a l IH]; simpl; intros Hid Hb Hz.
  - constructor.
  - inversion Hid as [|? ? Hnotin Hid']; subst.
    inversion Hb as [|? ? Ha Hb']; subst.
    inversion Hz as [|? ? Hznotin Hz']; subst.
    constructor; [|now apply IH].
    destruct (has_id i a) eqn:E.
    + destruct (F_hit a E) as [-> _].
      apply has_id_true in E. rewrite E in Hnotin.
      rewrite (raise_miss_z l Hnotin). intros Hin.
      apply in_map_iff in Hin. destruct Hin as [w [Hw Hin]].
      rewrite List.Forall_forall in Hb'. specialize (Hb' w Hin). simpl in Hb'. lia.
    + destruct (F_miss a E) as [-> _]. intros Hin.
      apply raise_z_in in Hin. destruct Hin as [Hin | Hin]; [lia | auto].
Qed.

(** The raised window is strictly above every other one. *)
Lemma raise_top top l w :
  top < newZ ->
  Forall (fun w => zIndex w <= top) l ->
  In w (List.map F l) -> id w <> i -> zIndex w < newZ.
Proof.
  intros Hlt Hb Hin Hne. apply in_map_iff in Hin.
  destruct Hin as [a [<- Hin]]. rewrite F_id in Hne.
  apply has_id_false in Hne. destruct (F_miss a Hne) as [-> _].
  rewrite List.Forall_forall in Hb. specialize (Hb a Hin). simpl in Hb. lia.
Qed.

Lemma raise_hit l :
  In i (List.map id l) ->
  exists w, In w (List.map F l) /\ id w = i /\ zIndex w = newZ
            /\ isFocused w = true.
Proof.
  intros Hin. apply in_map_iff in Hin. destruct Hin as [a [Hid Hin]].
  exists (F a). apply has_id_true in Hid. destruct (F_hit a Hid) as [Hz Hf].
  repeat split; auto.
  - now apply in_map.
  - rewrite F_id. now apply has_id_true.
Qed.

End Raise.

Lemma raise_restored_id i newZ w : id (raise_restored i newZ w) = id w.
Proof. unfold raise_restored. now destruct (has_id i w). Qed.

Lemma raise_restored_hit i newZ w :
  has_id i w = true ->
  zIndex (raise_restored i newZ w) = newZ
  /\ isFocused (raise_restored i newZ w) = true.
Proof. unfold raise_restored. intros ->. now split. Qed.

Lemma raise_restored_miss i newZ w :
  has_id i w = false ->
  zIndex (raise_restored i newZ w) = zIndex w
  /\ isFocused (raise_restored i newZ w) = false.
Proof. unfold raise_restored. intros ->. now split. Qed.

Lemma raise_focused_id i newZ w : id (raise_focused i newZ w) = id w.
Proof. unfold raise_focused. now destruct (has_id i w). Qed.

Lemma raise_focused_hit i newZ w :
  has_id i w = true ->
  zIndex (raise_focused i newZ w) = newZ
  /\ isFocused (raise_focused i newZ w) = true.
Proof. unfold raise_focused. intros ->. now split. Qed.

Lemma raise_focused_miss i newZ w :
  has_id i w = false ->
  zIndex (raise_focused i newZ w) = zIndex w
  /\ isFocused (raise_focused i newZ w) = false.
Proof. unfold raise_focused. intros ->. now split. Qed.

(** ** Updaters that leave identity and stacking alone *)

Section Neutral.

Variable f : WindowState -> WindowState.

Hypothesis f_id : forall w, id (f w) = id w.
Hypothesis f_z : forall w, zIndex (f w) = zIndex w.
Hypothesis f_focus : forall w, isFocused (f w) = true -> isFocused w = true.

Lemma neutral_ids l : List.map id (List.map f l) = List.map id l.
Proof. rewrite List.map_map. apply List.map_ext. exact f_id. Qed.

Lemma neutral_z l : List.map zIndex (List.map f l) = List.map zIndex l.
Proof. rewrite List.map_map. apply List.map_ext. exact f_z. Qed.

Lemma neutral_bound top l :
  Forall (fun w => zIndex w <= top) l ->
  Forall (fun w => zIndex w <= top) (List.map f l).
Proof.
  intros H. induction H; simpl; constructor; auto. now rewrite f_z.
Qed.

Lemma neutral_focus l :
  (focused_count (List.map f l) <= focused_count l)%nat.
Proof.
  unfold focused_count. induction l as [|a l IH]; simpl; [lia|].
  destruct (isFocused (f a)) eqn:E.
  - rewrite (f_focus a E). simpl. lia.
  - destruct (isFocused a); simpl; lia.
Qed.

End Neutral.

Lemma filter_map_NoDup {A B : Type} (g : A -> B) (p : A -> bool) l :
  List.NoDup (List.map g l) -> List.NoDup (List.map g (List.filter p l)).
Proof.
  induction l as [|a l IH]; simpl; intros H; [constructor|].
  inversion H as [|? ? Hnotin H']; subst.
  destruct (p a); simpl; [|now apply IH].
  constructor; [|now apply IH].
  intros Hin. apply Hnotin. apply in_map_iff in Hin.
  destruct Hin as [b [Hb Hin]]. apply filter_In in Hin.
  apply in_map_iff. exists b. tauto.
Qed.

Lemma NoDup_snoc {A : Type} (l : list A) (a : A) :
  List.NoDup l -> ~ In a l -> List.NoDup (l ++ [a]).
Proof.
  induction l as [|b l IH]; simpl; intros Hnd Hnotin.
  - constructor; [tauto | constructor].
  - inversion Hnd as [|? ? Hb Hnd']; subst. constructor.
    + intros Hin. apply in_app_or in Hin. simpl in Hin.
      destruct Hin as [Hin | [<- | []]]; tauto.
    + apply IH; tauto.
Qed.

Lemma filter_bound (p : WindowState -> bool) top l :
  Forall (fun w => zIndex w <= top) l ->
  Forall (fun w => zIndex w <= top) (List.filter p l).
Proof.
  intros H. induction H as [|a l Ha Hl IH]; simpl; [constructor|].
  destruct (p a); [constructor|]; auto.
Qed.

Lemma filter_focus (p : WindowState -> bool) l :
  (focused_count (List.filter p l) <= focused_count l)%nat.
Proof.
  unfold focused_count. induction l as [|a l IH]; simpl; [lia|].
  destruct (p a); simpl; destruct (isFocused a); simpl; lia.
Qed.

Lemma unfocus_all_count l :
  focused_count (List.map (set_isFocused false) l) = 0%nat.
Proof.
  unfold focused_count. induction l as [|a l IH]; simpl; auto.
Qed.

Lemma focused_count_app l1 l2 :
  focused_count (l1 ++ l2) = (focused_count l1 + focused_count l2)%nat.
Proof.
  unfold focused_count. now rewrite List.filter_app, List.length_app.
Qed.

(** ** The registry invariant is kept by every operation *)

Lemma well_stacked_initial : well_stacked initial.
Proof.
  split; simpl; try constructor. unfold focused_count. simpl. lia.
Qed.

Lemma well_stacked_raise i F s wot :
  (forall w, id (F w) = id w) ->
  (forall w, has_id i w = true ->
             zIndex (F w) = topZIndex s + 1 /\ isFocused (F w) = true) ->
  (forall w, has_id i w = false ->
             zIndex (F w) = zIndex w /\ isFocused (F w) = false) ->
  well_stacked s ->
  well_stacked (mkState (List.map F (windows s)) (topZIndex s + 1) wot).
Proof.
  intros Fid Fhit Fmiss [Hid Hb Hz Hf]. split; simpl.
  - now rewrite (raise_ids F Fid).
  - apply (raise_z_bound i _ F Fhit Fmiss (topZIndex s)); [lia | exact Hb].
  - apply (raise_z_NoDup i _ F Fhit Fmiss (topZIndex s)); auto. lia.
  - now apply (raise_focus i _ F Fhit Fmiss).
Qed.

Lemma well_stacked_neutral f s wot :
  (forall w, id (f w) = id w) ->
  (forall w, zIndex (f w) = zIndex w) ->
  (forall w, isFocused (f w) = true -> isFocused w = true) ->
  well_stacked s ->
  well_stacked (mkState (List.map f (windows s)) (topZIndex s) wot).
Proof.
  intros fid fz ff [Hid Hb Hz Hf]. split; simpl.
  - now rewrite (neutral_ids f fid).
  - now apply neutral_bound.
  - now rewrite (neutral_z f fz).
  - pose proof (neutral_focus f ff (windows s)). lia.
Qed.

Lemma well_stacked_spawn window s wot :
  find_window (in_id window) (windows s) = None ->
  well_stacked s ->
  well_stacked
    (mkState (List.map (set_isFocused false) (windows s)
              ++ [spawn window (topZIndex s + 1)])
             (topZIndex s + 1) wot).
Proof.
  intros Hnone [Hid Hb Hz Hf]. apply find_window_None in Hnone.
  assert (Hids : List.map id (List.map (set_isFocused false) (windows s))
                 = List.map id (windows s)).
  { rewrite List.map_map. now apply List.map_ext. }
  assert (Hzs : List.map zIndex (List.map (set_isFocused false) (windows s))
                = List.map zIndex (windows s)).
  { rewrite List.map_map. now apply List.map_ext. }
  split; simpl.
  - rewrite List.map_app, Hids. simpl. now apply NoDup_snoc.
  - apply Forall_app. split.
    + apply List.Forall_forall. intros w Hw. apply in_map_iff in Hw.
      destruct Hw as [a [<- Ha]]. simpl.
      rewrite List.Forall_forall in Hb. specialize (Hb a Ha). simpl in Hb. lia.
    + repeat constructor. simpl. lia.
  - rewrite List.map_app, Hzs. simpl. apply NoDup_snoc; [exact Hz|].
    intros Hv. apply in_map_iff in Hv. destruct Hv as [a [Ha Hin]].
    rewrite List.Forall_forall in Hb. specialize (Hb a Hin). simpl in Hb. lia.
  - rewrite focused_count_app, unfocus_all_count.
    unfold focused_count. simpl. lia.
Qed.

Lemma well_stacked_next o s : well_stacked s -> well_stacked (next o s).
Proof.
  intros H. destruct o as [now window|now i|i|i|i|i|i x' y'|i w' h'];
    unfold next, step.
  - unfold openWindow.
    destruct (find_window (in_id window) (windows s)) as [e|] eqn:E.
    + destruct (isMinimized e); simpl.
      * apply (well_stacked_raise (in_id window)); auto using
          raise_restored_id, raise_restored_hit, raise_restored_miss.
      * apply (well_stacked_raise (in_id window)); auto using
          raise_focused_id, raise_focused_hit, raise_focused_miss.
    + simpl. now apply well_stacked_spawn.
  - unfold closeWindow. destruct H as [Hid Hb Hz Hf].
    destruct (find_window i (windows s)), (open_time i (windowOpenTimes s));
      simpl; (split; simpl;
        [ now apply filter_map_NoDup | now apply filter_bound
        | now apply filter_map_NoDup
        | pose proof (filter_focus (fun w => negb (has_id i w)) (windows s));
          lia ]).
  - simpl. apply well_stacked_neutral; auto;
      intros w; destruct (has_id i w); auto; discriminate.
  - simpl. apply well_stacked_neutral; auto;
      intros w; destruct (has_id i w); auto.
  - simpl. apply (well_stacked_raise i); auto using
      raise_restored_id, raise_restored_hit, raise_restored_miss.
  - simpl. apply (well_stacked_raise i); auto using
      raise_focused_id, raise_focused_hit, raise_focused_miss.
  - simpl. apply well_stacked_neutral; auto;
      intros w; destruct (has_id i w); auto.
  - simpl. apply well_stacked_neutral; auto;
      intros w; destruct (has_id i w); auto.
Qed.

Lemma reachable_when_well_stacked ok s :
  reachable_when ok s -> well_stacked s.
Proof.
  induction 1 as [|s o Hs IH Hok].
  - exact well_stacked_initial.
  - now apply well_stacked_next.
Qed.

Lemma reachable_when_any ok s : reachable_when ok s -> reachable s.
Proof.
  induction 1 as [|s o Hs IH Hok].
  - apply reach_initial.
  - now apply reach_next.
Qed.

Lemma run_app ops1 ops2 s : run (ops1 ++ ops2) s = run ops2 (run ops1 s).
Proof. unfold run. apply fold_left_app. Qed.

Lemma run_reachable_from ok ops s :
  reachable_when ok s -> all_ok ok ops s = true ->
  reachable_when ok (run ops s).
Proof.
  revert s. induction ops as [|o ops IH]; simpl; intros s Hs Hok.
  - exact Hs.
  - apply andb_true_iff in Hok. destruct Hok as [Ho Hops].
    apply IH; [|exact Hops]. now apply reach_next.
Qed.

Lemma run_reachable_when ok ops :
  all_ok ok ops initial = true -> reachable_when ok (run ops initial).
Proof. apply run_reachable_from. apply reach_initial. Qed.

Lemma run_reachable ops : reachable (run ops initial).
Proof.
  apply run_reachable_when. generalize initial.
  induction ops as [|o ops IH]; simpl; auto.
Qed.

Lemma reachable_run s : reachable s -> exists ops, s = run ops initial.
Proof.
  induction 1 as [|s o Hs [ops ->] _].
  - now exists [].
  - exists (ops ++ [o]). now rewrite run_app.
Qed.

Lemma NoDup_map_inj {A B : Type} (g : A -> B) l a b :
  List.NoDup (List.map g l) -> In a l -> In b l -> g a = g b -> a = b.
Proof.
  induction l as [|c l IH]; simpl; intros Hnd Ha Hb Hg; [contradiction|].
  inversion Hnd as [|? ? Hnotin Hnd']; subst.
  destruct Ha as [-> | Ha], Hb as [-> | Hb]; auto.
  - exfalso. apply Hnotin. rewrite Hg. now apply in_map.
  - exfalso. apply Hnotin. rewrite <- Hg. now apply in_map.
Qed.

(** ** Focus and minimization *)

(** Split a hypothesis [In w' (map f l)] into its preimage. *)
Ltac preimage H w Hw :=
  apply in_map_iff in H; destruct H as [w [<- Hw]].

Lemma careful_next o s :
  well_stacked s -> minimized_never_focused s -> careful_call s o = true ->
  minimized_never_focused (next o s).
Proof.
  intros Hws Hinv Hok w' Hin.
  destruct o as [now window|now i|i|i|i|i|i x' y'|i wd ht];
    unfold next, step in Hin.
  - unfold openWindow in Hin. simpl in Hok.
    destruct (find_window (in_id window) (windows s)) as [e|] eqn:E.
    + destruct (isMinimized e) eqn:Emin; simpl in Hin; preimage Hin w Hw.
      * unfold raise_restored. destruct (has_id (in_id window) w); simpl;
          [reflexivity | apply andb_false_r].
      * unfold raise_focused.
        destruct (has_id (in_id window) w) eqn:Eid; simpl;
          [|apply andb_false_r].
        apply has_id_true in Eid.
        pose proof (find_window_NoDup _ w (ws_ids s Hws) Hw) as Hfind.
        rewrite Eid, E in Hfind. injection Hfind as <-.
        rewrite Emin. reflexivity.
    + simpl in Hin. apply in_app_or in Hin. destruct Hin as [Hin | Hin].
      * preimage Hin w Hw. simpl. apply andb_false_r.
      * simpl in Hin. destruct Hin as [<- | []]. simpl.
        apply negb_true_iff in Hok. rewrite Hok. reflexivity.
  - assert (Hin' : In w' (List.filter (fun w => negb (has_id i w)) (windows s))).
    { unfold closeWindow in Hin.
      destruct (find_window i (windows s)), (open_time i (windowOpenTimes s));
        exact Hin. }
    apply filter_In in Hin'. now apply Hinv.
  - simpl in Hin. preimage Hin w Hw.
    destruct (has_id i w); simpl; [reflexivity | now apply Hinv].
  - simpl in Hin. preimage Hin w Hw.
    destruct (has_id i w); simpl; now apply Hinv.
  - simpl in Hin. preimage Hin w Hw. unfold raise_restored.
    destruct (has_id i w); simpl; [reflexivity | apply andb_false_r].
  - simpl in Hin. preimage Hin w Hw. unfold raise_focused. simpl in Hok.
    destruct (has_id i w) eqn:Eid; simpl; [|apply andb_false_r].
    apply has_id_true in Eid.
    pose proof (find_window_NoDup _ w (ws_ids s Hws) Hw) as Hfind.
    rewrite Eid in Hfind. rewrite Hfind in Hok.
    apply negb_true_iff in Hok. rewrite Hok. reflexivity.
  - simpl in Hin. preimage Hin w Hw.
    destruct (has_id i w); simpl; now apply Hinv.
  - simpl in Hin. preimage Hin w Hw.
    destruct (has_id i w); simpl; now apply Hinv.
Qed.

(** C1, as stated, fails: after [open a; minimize a; focus a] the window
    "a" is minimized and focused, because [focusWindow] sets [isFocused]
    and leaves [isMinimized] as it is. *)
Lemma focus_on_minimized_window :
  ~ (forall s, reachable s -> minimized_never_focused s).
Proof.
  intros H.
  specialize (H (run [Open 1000 (sample "a"); Minimize "a"; Focus "a"] initial)
                (run_reachable _)).
  specialize (H (mkWindowState "a" "Notes" "notes" 40 60 640 480 102
                               true false true)).
  assert (Hin : In (mkWindowState "a" "Notes" "notes" 40 60 640 480 102
                                  true false true)
                   (windows (run [Open 1000 (sample "a"); Minimize "a";
                                  Focus "a"] initial))).
  { vm_compute. left. reflexivity. }
  specialize (H Hin). discriminate H.
Qed.

(** A second way into the same situation: [openWindow] copies the flags of
    its argument, so a record created with [isMinimized = true] is minimized
    and focused from the start. *)
Example open_minimized_is_focused :
  windows (next (Open 1000 (mkWindowInit "a" "Notes" "notes" 40 60 640 480
                                         true false)) initial)
  = [mkWindowState "a" "Notes" "notes" 40 60 640 480 101 true false true].
Proof. reflexivity. Qed.

Lemma order_free_is_careful s o :
  order_free_call o = true -> careful_call s o = true.
Proof.
  destruct o; simpl; try reflexivity; try discriminate.
  intros H. now destruct (find_window (in_id window) (windows s)).
Qed.

Lemma order_free_all_ok ops s :
  forallb order_free_call ops = true -> all_ok careful_call ops s = true.
Proof.
  revert s. induction ops as [|o ops IH]; simpl; intros s H; [reflexivity|].
  apply andb_true_iff in H. destruct H as [Ho Hops].
  now rewrite (order_free_is_careful s o Ho), IH.
Qed.

Lemma order_free_permuted calls applied :
  forallb order_free_call calls = true -> Permutation calls applied ->
  forallb order_free_call applied = true.
Proof.
  intros H Hp. apply forallb_forall. intros o Ho.
  apply (proj1 (forallb_forall _ _) H).
  apply (Permutation_in o (Permutation_sym Hp) Ho).
Qed.

(** C1, amended. The operations are taken in the order in which their
    updates are applied to the window list. In every state reached by
    updates of which each [openWindow] that creates a record carries
    [isMinimized = false] and no [focusWindow] meets its target minimized
    in the state it is applied to, no window is minimized and focused at
    once. In particular, whatever the order in which they are applied, calls
    among which there is no [focusWindow] and whose [openWindow] arguments
    all carry [isMinimized = false] never lead to a window that is
    minimized and focused. *)
Theorem minimized_never_focused_when_careful :
  (forall s, reachable_when careful_call s -> minimized_never_focused s)
  /\ (forall calls applied,
        forallb order_free_call calls = true -> Permutation calls applied ->
        minimized_never_focused (run applied initial)).
Proof.
  assert (H : forall s, reachable_when careful_call s ->
                        minimized_never_focused s).
  { intros s Hs. induction Hs as [|s o Hs IH Hok].
    - intros w [].
    - apply careful_next; auto.
      now apply (reachable_when_well_stacked careful_call). }
  split; [exact H|].
  intros calls applied Hfree Hp. apply H. apply run_reachable_when.
  apply order_free_all_ok. exact (order_free_permuted calls applied Hfree Hp).
Qed.

Lemma minimized_never_focused_when_careful_witness :
  minimized_never_focused
    (run (opened_abc ++ [Minimize "c"; Open 4000 (sample "c"); Focus "a";
                         Minimize "b"; Restore "b"; Close 5000 "a"])
         initial)
  /\ minimized_never_focused
       (run [Minimize "b"; Open 1000 (sample "a"); Restore "b";
             Open 2000 (sample "b")] initial).
Proof.
  split.
  - apply (proj1 minimized_never_focused_when_careful).
    apply run_reachable_when. vm_compute. reflexivity.
  - apply (proj2 minimized_never_focused_when_careful
             [Open 1000 (sample "a"); Open 2000 (sample "b"); Minimize "b";
              Restore "b"]).
    + reflexivity.
    + apply perm_trans with
        (l' := [Open 1000 (sample "a"); Minimize "b"; Open 2000 (sample "b");
                Restore "b"]).
      * apply perm_skip. apply perm_swap.
      * apply perm_trans with
          (l' := [Minimize "b"; Open 1000 (sample "a");
                  Open 2000 (sample "b"); Restore "b"]).
        { apply perm_swap. }
        { apply perm_skip. apply perm_skip. apply perm_swap. }
Defined.

(** C5: in every reachable state the number of focused windows is 0 or 1:
    no sequence of the eight operations, started from the empty registry,
    produces two focused windows. *)
Theorem at_most_one_focused (ops : list Op) :
  focused_count (windows (run ops initial)) = 0%nat
  \/ focused_count (windows (run ops initial)) = 1%nat.
Proof.
  pose proof (reachable_when_well_stacked _ _ (run_reachable ops)) as H.
  pose proof (ws_focus _ H). lia.
Qed.

Lemma raised_in_front i F s :
  (forall w, id (F w) = id w) ->
  (forall w, has_id i w = true ->
             zIndex (F w) = topZIndex s + 1 /\ isFocused (F w) = true) ->
  (forall w, has_id i w = false ->
             zIndex (F w) = zIndex w /\ isFocused (F w) = false) ->
  well_stacked s ->
  In i (List.map id (windows s)) ->
  exists w, In w (List.map F (windows s)) /\ id w = i
            /\ zIndex w = topZIndex s + 1
            /\ forall w', In w' (List.map F (windows s)) -> id w' <> i ->
                          zIndex w' < topZIndex s + 1.
Proof.
  intros Fid Fhit Fmiss Hws Hreg.
  destruct (raise_hit i (topZIndex s + 1) F Fid Fhit (windows s) Hreg)
    as [w [Hw [Hidw [Hz _]]]].
  exists w. repeat split; auto. intros w' Hw' Hne.
  apply (raise_top i (topZIndex s + 1) F Fid Fmiss (topZIndex s) (windows s));
    auto; try lia.
  exact (ws_bound _ Hws).
Qed.

(** C6: in every reachable state the stacking values of the registered
    windows are pairwise distinct, and right after an open, a restore or a
    focus that created or found its window, that window lies strictly above
    every other registered window. *)
Theorem zIndex_distinct_and_raised_on_top s :
  reachable s ->
  List.NoDup (List.map zIndex (windows s))
  /\ forall o i,
       raised o s = Some i ->
       exists w, In w (windows (next o s)) /\ id w = i
                 /\ forall w', In w' (windows (next o s)) -> w' <> w ->
                               zIndex w' < zIndex w.
Proof.
  intros Hr. pose proof (reachable_when_well_stacked _ _ Hr) as Hws.
  split; [exact (ws_z _ Hws)|].
  intros o i Hraised.
  pose proof (well_stacked_next o s Hws) as Hws'.
  assert (Hid : exists w, In w (windows (next o s)) /\ id w = i
                 /\ zIndex w = topZIndex s + 1
                 /\ forall w', In w' (windows (next o s)) -> id w' <> i ->
                               zIndex w' < topZIndex s + 1).
  { destruct o as [now window|now j|j|j|j|j|j x' y'|j wd ht];
      simpl in Hraised; try discriminate; unfold next, step.
    - injection Hraised as <-. unfold openWindow.
      destruct (find_window (in_id window) (windows s)) as [e|] eqn:E.
      + assert (Hreg : In (in_id window) (List.map id (windows s))).
        { apply find_window_registered. now exists e. }
        destruct (isMinimized e); simpl;
          apply raised_in_front; auto using
            raise_restored_id, raise_restored_hit, raise_restored_miss,
            raise_focused_id, raise_focused_hit, raise_focused_miss.
      + simpl. exists (spawn window (topZIndex s + 1)). repeat split.
        * apply in_or_app. right. now left.
        * intros w' Hw' Hne. apply in_app_or in Hw'.
          destruct Hw' as [Hw' | [<- | []]]; [|now elim Hne].
          preimage Hw' a Ha. simpl.
          pose proof (ws_bound _ Hws) as Hb.
          rewrite List.Forall_forall in Hb. specialize (Hb a Ha).
          simpl in Hb. lia.
    - destruct (find_window j (windows s)) as [e|] eqn:E; [|discriminate].
      injection Hraised as <-.
      assert (Hreg : In j (List.map id (windows s))).
      { apply find_window_registered. now exists e. }
      simpl. apply raised_in_front; auto using
        raise_restored_id, raise_restored_hit, raise_restored_miss.
    - destruct (find_window j (windows s)) as [e|] eqn:E; [|discriminate].
      injection Hraised as <-.
      assert (Hreg : In j (List.map id (windows s))).
      { apply find_window_registered. now exists e. }
      simpl. apply raised_in_front; auto using
        raise_focused_id, raise_focused_hit, raise_focused_miss. }
  destruct Hid as [w [Hw [Hidw [Hz Htop]]]].
  exists w. repeat split; auto. intros w' Hw' Hne. rewrite Hz.
  apply Htop; auto. intros Hid'. apply Hne.
  apply (NoDup_map_inj id (windows (next o s))); auto.
  - exact (ws_ids _ Hws').
  - congruence.
Qed.

Lemma zIndex_distinct_and_raised_on_top_witness :
  List.NoDup (List.map zIndex (windows (run opened_abc initial)))
  /\ forall o i,
       raised o (run opened_abc initial) = Some i ->
       exists w, In w (windows (next o (run opened_abc initial))) /\ id w = i
                 /\ forall w', In w' (windows (next o (run opened_abc initial)))
                               -> w' <> w -> zIndex w' < zIndex w.
Proof.
  apply (zIndex_distinct_and_raised_on_top (run opened_abc initial)).
  apply run_reachable.
Defined.

(** ** Operations aimed at an id that is not registered *)

Lemma state_eta s : mkState (windows s) (topZIndex s) (windowOpenTimes s) = s.
Proof. now destruct s. Qed.

(** Close, minimize, maximize and the two geometry updates leave the state
    as it is and report nothing. *)
Lemma unknown_id_noop s o i :
  target o = Some i -> ~ registered i s ->
  (forall j, o <> Restore j) -> (forall j, o <> Focus j) ->
  step o s = (s, []).
Proof.
  unfold registered. intros Ht Hreg Hr Hf.
  pose proof (proj2 (find_window_None i (windows s)) Hreg) as Hnone.
  destruct o as [now window|now j|j|j|j|j|j x' y'|j wd ht];
    simpl in Ht; try discriminate; injection Ht as ->; simpl.
  - unfold closeWindow. rewrite Hnone, filter_unmatched by exact Hreg.
    now rewrite state_eta.
  - unfold minimizeWindow. rewrite Hnone, map_unmatched by exact Hreg.
    now rewrite state_eta.
  - unfold maximizeWindow. rewrite Hnone.
    rewrite (map_unmatched (fun w => set_isMaximized (negb (isMaximized w)) w))
      by exact Hreg.
    now rewrite state_eta.
  - now elim (Hr i).
  - now elim (Hf i).
  - unfold updateWindowPosition. rewrite map_unmatched by exact Hreg.
    now rewrite state_eta.
  - unfold updateWindowSize. rewrite map_unmatched by exact Hreg.
    now rewrite state_eta.
Qed.

Lemma raise_unmatched (F : WindowState -> WindowState) i l :
  (forall w, has_id i w = false -> F w = set_isFocused false w) ->
  ~ In i (List.map id l) ->
  List.map F l = List.map (set_isFocused false) l.
Proof.
  intros HF. induction l as [|a l IH]; simpl; intros H; [reflexivity|].
  rewrite HF, IH; auto.
  apply has_id_false. intros E. apply H. now left.
Qed.

(** Restore and focus do change the state: they take the next stacking
    value and clear [isFocused] on every window. *)
Lemma unknown_id_raise s o i :
  o = Restore i \/ o = Focus i -> ~ registered i s ->
  step o s = (mkState (List.map (set_isFocused false) (windows s))
                      (topZIndex s + 1) (windowOpenTimes s), []).
Proof.
  unfold registered. intros Ho Hreg.
  pose proof (proj2 (find_window_None i (windows s)) Hreg) as Hnone.
  destruct Ho as [-> | ->]; simpl.
  - unfold restoreWindow. f_equal. f_equal.
    apply (raise_unmatched _ i); auto.
    intros w E. unfold raise_restored. now rewrite E.
  - unfold focusWindow. rewrite Hnone. f_equal. f_equal.
    apply (raise_unmatched _ i); auto.
    intros w E. unfold raise_focused. now rewrite E.
Qed.

(** C2, at a failing input: with "a" open and focused, [focusWindow] and
    [restoreWindow] on the unregistered id "ghost" are not no-ops. The
    counter goes from 101 to 102 and "a" loses the focus. *)
Theorem unknown_id_focus_is_not_noop :
  let s := run [Open 1000 (sample "a")] initial in
  ~ registered "ghost" s
  /\ ~ silent_noop (Focus "ghost") s
  /\ ~ silent_noop (Restore "ghost") s
  /\ topZIndex s = 101
  /\ topZIndex (next (Focus "ghost") s) = 102
  /\ topZIndex (next (Restore "ghost") s) = 102
  /\ focused_count (windows s) = 1%nat
  /\ focused_count (windows (next (Focus "ghost") s)) = 0%nat
  /\ focused_count (windows (next (Restore "ghost") s)) = 0%nat.
Proof.
  cbv zeta. repeat split; try (vm_compute; reflexivity).
  - intros H. vm_compute in H. destruct H as [H | []]. discriminate H.
  - intros H. apply (f_equal topZIndex) in H. vm_compute in H. discriminate H.
  - intros H. apply (f_equal topZIndex) in H. vm_compute in H. discriminate H.
Qed.

(** ** Closing *)

Lemma close_windows now i s :
  windows (next (Close now i) s)
  = List.filter (fun w => negb (has_id i w)) (windows s)
  /\ topZIndex (next (Close now i) s) = topZIndex s.
Proof.
  unfold next, step, closeWindow.
  destruct (find_window i (windows s)), (open_time i (windowOpenTimes s));
    simpl; auto.
Qed.

Lemma filter_split_at i l :
  List.NoDup (List.map id l) -> In i (List.map id l) ->
  exists l1 w l2,
    l = l1 ++ w :: l2 /\ id w = i
    /\ List.filter (fun w => negb (has_id i w)) l = l1 ++ l2.
Proof.
  intros Hnd Hin. apply in_map_iff in Hin. destruct Hin as [w [Hid Hw]].
  apply in_split in Hw. destruct Hw as [l1 [l2 ->]].
  exists l1, w, l2. repeat split; auto.
  rewrite List.map_app in Hnd. simpl in Hnd.
  pose proof (NoDup_remove_2 _ _ _ Hnd) as Hnotin.
  rewrite List.filter_app. simpl.
  replace (has_id i w) with true by (symmetry; now apply has_id_true).
  simpl. rewrite Hid in Hnotin.
  rewrite !filter_unmatched; auto; intros H; apply Hnotin, in_or_app; auto.
Qed.

(** C7: closing a registered id takes exactly that record out of the list;
    the records before and after it stay where they were with every field
    as it was (so no other window gains or loses focus or changes its
    stacking value), and the counter is untouched. *)
Theorem close_removes_only_the_target s now i :
  reachable s -> registered i s ->
  exists before w after,
    windows s = before ++ w :: after
    /\ id w = i
    /\ windows (next (Close now i) s) = before ++ after
    /\ ~ registered i (next (Close now i) s)
    /\ topZIndex (next (Close now i) s) = topZIndex s.
Proof.
  intros Hr Hreg. pose proof (reachable_when_well_stacked _ _ Hr) as Hws.
  destruct (close_windows now i s) as [Hw Hz].
  destruct (filter_split_at i (windows s) (ws_ids _ Hws) Hreg)
    as [l1 [w [l2 [Hsplit [Hid Hfilter]]]]].
  exists l1, w, l2. repeat split; auto.
  - congruence.
  - unfold registered. rewrite Hw. intros Hin.
    apply in_map_iff in Hin. destruct Hin as [a [Ha Hin]].
    apply filter_In in Hin. destruct Hin as [_ Hneg].
    apply negb_true_iff, has_id_false in Hneg. contradiction.
Qed.

Lemma close_removes_only_the_target_witness :
  exists before w after,
    windows (run opened_abc initial) = before ++ w :: after
    /\ id w = "b"
    /\ windows (next (Close 4000 "b") (run opened_abc initial))
       = before ++ after
    /\ ~ registered "b" (next (Close 4000 "b") (run opened_abc initial))
    /\ topZIndex (next (Close 4000 "b") (run opened_abc initial))
       = topZIndex (run opened_abc initial).
Proof.
  apply (close_removes_only_the_target (run opened_abc initial) 4000 "b").
  - apply run_reachable.
  - vm_compute. right. left. reflexivity.
Defined.

(** ** Open followed by close *)

Lemma unfocused_fixpoint l :
  focused_count l = 0%nat -> List.map (set_isFocused false) l = l.
Proof.
  unfold focused_count. induction l as [|a l IH]; simpl; [reflexivity|].
  destruct (isFocused a) eqn:E; simpl; [discriminate|].
  intros H. rewrite IH by exact H. f_equal.
  destruct a; simpl in *. now subst.
Qed.

(** C3, as stated, fails: with "a" open and focused, opening and closing
    "b" leaves "a" unfocused, so the windows are not what they were. *)
Lemma open_close_drops_focus :
  ~ (forall s now window now',
       reachable s -> ~ registered (in_id window) s ->
       open_close_round_trip s now window now').
Proof.
  intros H.
  specialize (H (run [Open 1000 (sample "a")] initial) 2000 (sample "b") 3000
                (run_reachable _)).
  assert (Hreg : ~ registered (in_id (sample "b"))
                   (run [Open 1000 (sample "a")] initial)).
  { intros Hin. vm_compute in Hin. destruct Hin as [Hin | []]. discriminate. }
  destruct (H Hreg) as [Hw _]. vm_compute in Hw. discriminate Hw.
Qed.

(** C3, amended: opening an unregistered id and closing it again leaves the
    same windows in the same order with every field as before except
    [isFocused], which is false on all of them; the counter has grown by
    one. When no window was focused before, the windows are exactly what
    they were. *)
Theorem open_then_close s now window now' :
  ~ registered (in_id window) s ->
  let s' := next (Close now' (in_id window)) (next (Open now window) s) in
  windows s' = List.map (set_isFocused false) (windows s)
  /\ topZIndex s' = topZIndex s + 1
  /\ (focused_count (windows s) = 0%nat -> windows s' = windows s).
Proof.
  unfold registered. intros Hreg. cbv zeta.
  destruct (close_windows now' (in_id window) (next (Open now window) s))
    as [Hw Hz].
  pose proof (proj2 (find_window_None _ _) Hreg) as Hnone.
  assert (Hopen : next (Open now window) s
                  = mkState (List.map (set_isFocused false) (windows s)
                             ++ [spawn window (topZIndex s + 1)])
                            (topZIndex s + 1)
                            (<[in_id window := now]> (windowOpenTimes s))).
  { unfold next, step, openWindow. now rewrite Hnone. }
  rewrite Hopen in Hw, Hz. simpl in Hw, Hz.
  assert (Hwin : windows (next (Close now' (in_id window))
                               (next (Open now window) s))
                 = List.map (set_isFocused false) (windows s)).
  { rewrite Hopen, Hw, List.filter_app. simpl.
    replace (has_id (in_id window) (spawn window (topZIndex s + 1)))
      with true by (symmetry; now apply has_id_true).
    simpl. rewrite app_nil_r. apply filter_unmatched.
    rewrite List.map_map. simpl. exact Hreg. }
  repeat split; auto.
  - now rewrite Hopen.
  - intros H0. rewrite Hwin. now apply unfocused_fixpoint.
Qed.

Lemma open_then_close_witness :
  windows (next (Close 5000 "d")
             (next (Open 4000 (sample "d")) (run opened_abc initial)))
  = List.map (set_isFocused false) (windows (run opened_abc initial))
  /\ topZIndex (next (Close 5000 "d")
                  (next (Open 4000 (sample "d")) (run opened_abc initial)))
     = topZIndex (run opened_abc initial) + 1
  /\ (focused_count (windows (run opened_abc initial)) = 0%nat ->
      windows (next (Close 5000 "d")
                 (next (Open 4000 (sample "d")) (run opened_abc initial)))
      = windows (run opened_abc initial)).
Proof.
  apply (open_then_close (run opened_abc initial) 4000 (sample "d") 5000).
  intros Hin. vm_compute in Hin.
  destruct Hin as [Hin | [Hin | [Hin | []]]]; discriminate Hin.
Defined.

(** ** What [openWindow] reports *)

(** C4, as stated, fails: re-opening the minimized window "a" calls
    [logWindowOpen] although "a" is registered. *)
Lemma reopening_minimized_logs_open :
  ~ (forall s now window, reachable s -> opened_iff_new s now window).
Proof.
  intros H.
  specialize (H (run [Open 1000 (sample "a"); Minimize "a"] initial)
                2000 (sample "a") (run_reachable _)).
  destruct H as [H _]. vm_compute in H. specialize (H eq_refl). discriminate H.
Qed.

(** C4, amended: [openWindow] calls [logWindowOpen] exactly when the id is
    new or the window found under it is minimized, and then once; it calls
    [trackWindowOpen] exactly when the id is new. Re-focusing a visible
    window reports nothing. *)
Theorem opened_notification_cases s now window :
  let i := in_id window in
  let out := emitted (Open now window) s in
  (existsb opened_notification out = true
   <-> find_window i (windows s) = None
       \/ exists w, find_window i (windows s) = Some w /\ isMinimized w = true)
  /\ (existsb open_metric out = true <-> find_window i (windows s) = None)
  /\ (length (List.filter opened_notification out) <= 1)%nat
  /\ (forall w, find_window i (windows s) = Some w -> isMinimized w = false ->
                out = []).
Proof.
  cbv zeta. unfold emitted, step, openWindow.
  destruct (find_window (in_id window) (windows s)) as [e|] eqn:E.
  - destruct (isMinimized e) eqn:Emin; simpl; repeat split;
      try lia; try discriminate; auto.
    + intros _. right. now exists e.
    + intros w Hw. injection Hw as <-. congruence.
    + intros [H | [w [Hw Hm]]]; [discriminate|].
      injection Hw as <-. congruence.
  - simpl. repeat split; auto; try lia. intros w Hw. discriminate Hw.
Qed.

(** ** Maximize *)

Lemma Forall2_map_same {A : Type} (R : A -> A -> Prop) (f : A -> A) l :
  (forall a, R a (f a)) -> Forall2 R l (List.map f l).
Proof. intros H. induction l; simpl; constructor; auto. Qed.

Lemma find_window_map (f : WindowState -> WindowState) i l :
  (forall w, id (f w) = id w) ->
  find_window i (List.map f l) = option_map f (find_window i l).
Proof.
  intros Hid. unfold find_window.
  induction l as [|a l IH]; simpl; [reflexivity|].
  unfold has_id at 1. rewrite Hid. fold (has_id i a).
  destruct (has_id i a); simpl; auto.
Qed.

Lemma toggle_twice i l :
  List.map (fun w => if has_id i w
                     then set_isMaximized (negb (isMaximized w)) w else w)
    (List.map (fun w => if has_id i w
                        then set_isMaximized (negb (isMaximized w)) w else w)
       l) = l.
Proof.
  induction l as [|a l IH]; simpl; [reflexivity|]. rewrite IH. f_equal.
  destruct (has_id i a) eqn:E; [|now rewrite E].
  unfold has_id in *. simpl. rewrite E.
  destruct a; simpl. now rewrite negb_involutive.
Qed.

(** C8: [maximizeWindow] on a registered id negates [isMaximized] on that
    window and changes nothing else: every window keeps all its other
    fields, the other windows keep [isMaximized] too, and the counter is
    untouched; two calls in a row give back the state there was. *)
Theorem maximize_is_a_flag_flip s i w :
  find_window i (windows s) = Some w ->
  let s' := next (Maximize i) s in
  Forall2 (fun a a' =>
             same_but_isMaximized a a'
             /\ isMaximized a' = if has_id i a then negb (isMaximized a)
                                 else isMaximized a)
          (windows s) (windows s')
  /\ (exists w', find_window i (windows s') = Some w'
                 /\ isMaximized w' = negb (isMaximized w))
  /\ topZIndex s' = topZIndex s
  /\ windowOpenTimes s' = windowOpenTimes s
  /\ next (Maximize i) s' = s.
Proof.
  intros Hfind. cbv zeta. unfold next, step, maximizeWindow. simpl.
  repeat split.
  - apply Forall2_map_same. intros a. unfold same_but_isMaximized.
    destruct (has_id i a); simpl; repeat split; reflexivity.
  - rewrite find_window_map, Hfind; simpl.
    + eexists. split; [reflexivity|].
      apply find_window_Some in Hfind. destruct Hfind as [_ Hid].
      apply has_id_true in Hid. rewrite Hid. reflexivity.
    + intros a. now destruct (has_id i a).
  - rewrite toggle_twice. apply state_eta.
Qed.

Lemma maximize_is_a_flag_flip_witness :
  Forall2 (fun a a' =>
             same_but_isMaximized a a'
             /\ isMaximized a' = if has_id "b" a then negb (isMaximized a)
                                 else isMaximized a)
          (windows (run opened_abc initial))
          (windows (next (Maximize "b") (run opened_abc initial)))
  /\ (exists w', find_window "b"
                   (windows (next (Maximize "b") (run opened_abc initial)))
                 = Some w'
                 /\ isMaximized w'
                    = negb (isMaximized
                              (mkWindowState "b" "Notes" "notes" 40 60 640 480
                                             102 false false false)))
  /\ topZIndex (next (Maximize "b") (run opened_abc initial))
     = topZIndex (run opened_abc initial)
  /\ windowOpenTimes (next (Maximize "b") (run opened_abc initial))
     = windowOpenTimes (run opened_abc initial)
  /\ next (Maximize "b") (next (Maximize "b") (run opened_abc initial))
     = run opened_abc initial.
Proof.
  apply (maximize_is_a_flag_flip (run opened_abc initial) "b"
           (mkWindowState "b" "Notes" "notes" 40 60 640 480 102
                          false false false)).
  vm_compute. reflexivity.
Defined.

(** ** Scenario: three windows, then focus the first *)

(** C9: after "a", "b" and "c" have been opened in that order on the empty
    registry, [focusWindow "a"] leaves "a" focused and strictly above "b"
    and "c", leaves "b" and "c" unfocused, and leaves the stacking values
    of "b" and "c" as they were. *)
Theorem focus_a_after_abc na nb nc wa wb wc :
  in_id wa = "a" -> in_id wb = "b" -> in_id wc = "c" ->
  let s := run [Open na wa; Open nb wb; Open nc wc] initial in
  let s' := next (Focus "a") s in
  exists a b c a' b' c',
    windows s = [a; b; c] /\ windows s' = [a'; b'; c']
    /\ (id a = "a" /\ id b = "b" /\ id c = "c")
    /\ (id a' = "a" /\ id b' = "b" /\ id c' = "c")
    /\ isFocused a' = true
    /\ zIndex b' < zIndex a' /\ zIndex c' < zIndex a'
    /\ isFocused b' = false /\ isFocused c' = false
    /\ zIndex b' = zIndex b /\ zIndex c' = zIndex c.
Proof.
  destruct wa, wb, wc. simpl. intros -> -> ->.
  do 6 eexists. vm_compute. repeat split; congruence.
Qed.

Lemma focus_a_after_abc_witness :
  exists a b c a' b' c',
    windows (run opened_abc initial) = [a; b; c]
    /\ windows (next (Focus "a") (run opened_abc initial)) = [a'; b'; c']
    /\ (id a = "a" /\ id b = "b" /\ id c = "c")
    /\ (id a' = "a" /\ id b' = "b" /\ id c' = "c")
    /\ isFocused a' = true
    /\ zIndex b' < zIndex a' /\ zIndex c' < zIndex a'
    /\ isFocused b' = false /\ isFocused c' = false
    /\ zIndex b' = zIndex b /\ zIndex c' = zIndex c.
Proof.
  apply (focus_a_after_abc 1000 2000 3000 (sample "a") (sample "b")
           (sample "c")); reflexivity.
Defined.

(** ** Opening an id that is already registered *)

(** C10: when a window is registered under the id, [openWindow] keeps its
    title and appType (and its geometry and [isMaximized]) whatever the
    argument carries; on every window only [isMinimized], [isFocused] and
    [zIndex] can differ afterwards, and no window is added or removed. *)
Theorem open_existing_keeps_title_and_appType s now window w :
  find_window (in_id window) (windows s) = Some w ->
  let s' := next (Open now window) s in
  Forall2 same_but_stacking (windows s) (windows s')
  /\ exists w', find_window (in_id window) (windows s') = Some w'
                /\ title w' = title w /\ appType w' = appType w
                /\ same_but_stacking w w'.
Proof.
  intros Hfind. cbv zeta. unfold next, step, openWindow. rewrite Hfind.
  destruct (isMinimized w); simpl; split.
  - apply Forall2_map_same. intros a. unfold raise_restored.
    destruct (has_id (in_id window) a); repeat split.
  - rewrite find_window_map by apply raise_restored_id. rewrite Hfind. simpl.
    eexists. split; [reflexivity|]. unfold raise_restored.
    destruct (has_id (in_id window) w); repeat split.
  - apply Forall2_map_same. intros a. unfold raise_focused.
    destruct (has_id (in_id window) a); repeat split.
  - rewrite find_window_map by apply raise_focused_id. rewrite Hfind. simpl.
    eexists. split; [reflexivity|]. unfold raise_focused.
    destruct (has_id (in_id window) w); repeat split.
Qed.

Lemma open_existing_keeps_title_and_appType_witness :
  Forall2 same_but_stacking
    (windows (run opened_abc initial))
    (windows (next (Open 4000 (mkWindowInit "b" "Terminal" "shell"
                                            0 0 100 100 false true))
                (run opened_abc initial)))
  /\ exists w',
       find_window "b"
         (windows (next (Open 4000 (mkWindowInit "b" "Terminal" "shell"
                                                 0 0 100 100 false true))
                     (run opened_abc initial))) = Some w'
       /\ title w' = "Notes" /\ appType w' = "notes"
       /\ same_but_stacking
            (mkWindowState "b" "Notes" "notes" 40 60 640 480 102
                           false false false) w'.
Proof.
  apply (open_existing_keeps_title_and_appType (run opened_abc initial) 4000
           (mkWindowInit "b" "Terminal" "shell" 0 0 100 100 false true)
           (mkWindowState "b" "Notes" "notes" 40 60 640 480 102
                          false false false)).
  vm_compute. reflexivity.
Defined.

(** * Further properties of the registry *)

(** ** The stacking counter *)

Lemma topZIndex_next o s :
  topZIndex (next o s)
  = topZIndex s + (if takes_stacking_value o then 1 else 0).
Proof.
  destruct o as [now window|now i|i|i|i|i|i x' y'|i wd ht];
    unfold next, step; simpl; try lia.
  - unfold openWindow.
    destruct (find_window (in_id window) (windows s)) as [e|];
      [destruct (isMinimized e)|]; reflexivity.
  - destruct (close_windows now i s) as [_ H]. unfold next, step in H. lia.
Qed.

(** X1: the counter starts at 100, goes up by exactly one on every open,
    restore and focus call (whether or not the id is registered) and is
    left alone by the other five operations; it never goes down. *)
Theorem counter_counts_raising_calls (ops : list Op) (s : State) :
  topZIndex (run ops s)
  = topZIndex s + Z.of_nat (length (List.filter takes_stacking_value ops))
  /\ topZIndex s <= topZIndex (run ops s)
  /\ topZIndex (run ops initial)
     = 100 + Z.of_nat (length (List.filter takes_stacking_value ops)).
Proof.
  assert (H : forall st, topZIndex (run ops st)
              = topZIndex st
                + Z.of_nat (length (List.filter takes_stacking_value ops))).
  { induction ops as [|o ops IH]; intros st; simpl; [lia|].
    change (run (o :: ops) st) with (run ops (next o st)).
    rewrite IH, topZIndex_next. simpl List.filter.
    destruct (takes_stacking_value o).
    - change (length (o :: List.filter takes_stacking_value ops))
        with (S (length (List.filter takes_stacking_value ops))).
      rewrite Nat2Z.inj_succ. lia.
    - lia. }
  repeat split.
  - apply H.
  - rewrite H. lia.
  - rewrite H. reflexivity.
Qed.

(** Where the stacking value of a window of the next state comes from. *)
Lemma zIndex_next o s w' :
  In w' (windows (next o s)) ->
  zIndex w' = topZIndex s + 1
  \/ exists w, In w (windows s) /\ zIndex w' = zIndex w.
Proof.
  intros Hin.
  destruct o as [now window|now i|i|i|i|i|i x' y'|i wd ht];
    unfold next, step in Hin.
  - unfold openWindow in Hin.
    destruct (find_window (in_id window) (windows s)) as [e|].
    + destruct (isMinimized e); simpl in Hin; preimage Hin w Hw.
      * unfold raise_restored. destruct (has_id (in_id window) w); simpl; eauto.
      * unfold raise_focused. destruct (has_id (in_id window) w); simpl; eauto.
    + simpl in Hin. apply in_app_or in Hin. destruct Hin as [Hin | Hin].
      * preimage Hin w Hw. simpl. eauto.
      * simpl in Hin. destruct Hin as [<- | []]. now left.
  - destruct (close_windows now i s) as [Hw _]. unfold next, step in Hw.
    rewrite Hw in Hin. apply filter_In in Hin. destruct Hin as [Hin _]. eauto.
  - simpl in Hin. preimage Hin w Hw. destruct (has_id i w); simpl; eauto.
  - simpl in Hin. preimage Hin w Hw. destruct (has_id i w); simpl; eauto.
  - simpl in Hin. preimage Hin w Hw. unfold raise_restored.
    destruct (has_id i w); simpl; eauto.
  - simpl in Hin. preimage Hin w Hw. unfold raise_focused.
    destruct (has_id i w); simpl; eauto.
  - simpl in Hin. preimage Hin w Hw. destruct (has_id i w); simpl; eauto.
  - simpl in Hin. preimage Hin w Hw. destruct (has_id i w); simpl; eauto.
Qed.

Lemma reachable_above_100 s :
  reachable s ->
  100 <= topZIndex s /\ forall w, In w (windows s) -> 100 < zIndex w.
Proof.
  induction 1 as [|s o Hs [IHtop IHz] _].
  - split; [simpl; lia | intros w []].
  - split.
    + rewrite topZIndex_next. destruct (takes_stacking_value o); lia.
    + intros w' Hin. destruct (zIndex_next o s w' Hin) as [-> | [w [Hw ->]]];
        [lia | now apply IHz].
Qed.

(** X2: in every reachable state an id names at most one record, and every
    stacking value lies above the initial counter value 100 and does not
    exceed the current counter. *)
Theorem ids_unique_and_zIndex_in_range s :
  reachable s ->
  (forall w1 w2, In w1 (windows s) -> In w2 (windows s) ->
                 id w1 = id w2 -> w1 = w2)
  /\ (forall w, In w (windows s) -> 100 < zIndex w <= topZIndex s).
Proof.
  intros Hr. pose proof (reachable_when_well_stacked _ _ Hr) as Hws.
  destruct (reachable_above_100 s Hr) as [_ Hz]. split.
  - intros w1 w2 H1 H2 Hid.
    exact (NoDup_map_inj id (windows s) w1 w2 (ws_ids _ Hws) H1 H2 Hid).
  - intros w Hw. split; [now apply Hz|].
    pose proof (ws_bound _ Hws) as Hb. rewrite List.Forall_forall in Hb.
    exact (Hb w Hw).
Qed.

Lemma ids_unique_and_zIndex_in_range_witness :
  (forall w1 w2, In w1 (windows (run opened_abc initial)) ->
                 In w2 (windows (run opened_abc initial)) ->
                 id w1 = id w2 -> w1 = w2)
  /\ (forall w, In w (windows (run opened_abc initial)) ->
                100 < zIndex w <= topZIndex (run opened_abc initial)).
Proof.
  apply (ids_unique_and_zIndex_in_range (run opened_abc initial)).
  apply run_reachable.
Defined.

(** ** The focused window *)

Lemma focused_on_top_next o s :
  (forall w, In w (windows s) -> isFocused w = true ->
             zIndex w = topZIndex s) ->
  forall w, In w (windows (next o s)) -> isFocused w = true ->
            zIndex w = topZIndex (next o s).
Proof.
  intros IH w' Hin Hf. rewrite topZIndex_next.
  destruct o as [now window|now i|i|i|i|i|i x' y'|i wd ht];
    unfold next, step in Hin; simpl takes_stacking_value; cbv iota.
  - unfold openWindow in Hin.
    destruct (find_window (in_id window) (windows s)) as [e|].
    + destruct (isMinimized e); simpl in Hin; preimage Hin w Hw.
      * unfold raise_restored in *.
        destruct (has_id (in_id window) w); simpl in *; congruence.
      * unfold raise_focused in *.
        destruct (has_id (in_id window) w); simpl in *; congruence.
    + simpl in Hin. apply in_app_or in Hin. destruct Hin as [Hin | Hin].
      * preimage Hin w Hw. simpl in Hf. discriminate.
      * simpl in Hin. destruct Hin as [<- | []]. reflexivity.
  - destruct (close_windows now i s) as [Hw _]. unfold next, step in Hw.
    rewrite Hw in Hin. apply filter_In in Hin. destruct Hin as [Hin _].
    rewrite (IH _ Hin Hf). lia.
  - simpl in Hin. preimage Hin w Hw.
    destruct (has_id i w); simpl in *; [discriminate|].
    rewrite (IH _ Hw Hf). lia.
  - simpl in Hin. preimage Hin w Hw.
    destruct (has_id i w); simpl in *; rewrite (IH _ Hw Hf); lia.
  - simpl in Hin. preimage Hin w Hw. unfold raise_restored in *.
    destruct (has_id i w); simpl in *; congruence.
  - simpl in Hin. preimage Hin w Hw. unfold raise_focused in *.
    destruct (has_id i w); simpl in *; congruence.
  - simpl in Hin. preimage Hin w Hw.
    destruct (has_id i w); simpl in *; rewrite (IH _ Hw Hf); lia.
  - simpl in Hin. preimage Hin w Hw.
    destruct (has_id i w); simpl in *; rewrite (IH _ Hw Hf); lia.
Qed.

Lemma reachable_focused_on_top s :
  reachable s ->
  forall w, In w (windows s) -> isFocused w = true -> zIndex w = topZIndex s.
Proof.
  induction 1 as [|s o Hs IH _].
  - intros w [].
  - now apply focused_on_top_next.
Qed.

(** X3: in every reachable state a focused window is the topmost one: its
    stacking value equals the counter, every other registered window lies
    strictly below it and is not focused. *)
Theorem focused_window_is_topmost s w :
  reachable s -> In w (windows s) -> isFocused w = true ->
  zIndex w = topZIndex s
  /\ forall w', In w' (windows s) -> w' <> w ->
                zIndex w' < zIndex w /\ isFocused w' = false.
Proof.
  intros Hr Hw Hf. pose proof (reachable_when_well_stacked _ _ Hr) as Hws.
  pose proof (reachable_focused_on_top s Hr) as Htop.
  split; [now apply Htop|].
  intros w' Hw' Hne.
  assert (Hz : zIndex w' <> zIndex w).
  { intros E. apply Hne.
    exact (NoDup_map_inj zIndex (windows s) w' w (ws_z _ Hws) Hw' Hw E). }
  split.
  - pose proof (ws_bound _ Hws) as Hb. rewrite List.Forall_forall in Hb.
    specialize (Hb w' Hw'). simpl in Hb. pose proof (Htop w Hw Hf). lia.
  - destruct (isFocused w') eqn:E; [|reflexivity].
    exfalso. apply Hz. rewrite (Htop w Hw Hf), (Htop w' Hw' E). reflexivity.
Qed.

Lemma focused_window_is_topmost_witness :
  zIndex (mkWindowState "c" "Notes" "notes" 40 60 640 480 103
                        false false true)
  = topZIndex (run opened_abc initial)
  /\ forall w', In w' (windows (run opened_abc initial)) ->
                w' <> mkWindowState "c" "Notes" "notes" 40 60 640 480 103
                                    false false true ->
                zIndex w' < zIndex (mkWindowState "c" "Notes" "notes" 40 60
                                                  640 480 103 false false true)
                /\ isFocused w' = false.
Proof.
  apply (focused_window_is_topmost (run opened_abc initial)).
  - apply run_reachable.
  - vm_compute. right. right. left. reflexivity.
  - reflexivity.
Defined.

Lemma focused_count_pos l w :
  In w l -> isFocused w = true -> (1 <= focused_count l)%nat.
Proof.
  unfold focused_count. intros Hin Hf.
  assert (H : In w (List.filter isFocused l)) by (apply filter_In; auto).
  destruct (List.filter isFocused l); [contradiction | simpl; lia].
Qed.

Lemma raised_is_focused o s i :
  raised o s = Some i ->
  exists w, In w (windows (next o s)) /\ id w = i /\ isFocused w = true.
Proof.
  intros Hraised.
  destruct o as [now window|now j|j|j|j|j|j x' y'|j wd ht];
    simpl in Hraised; try discriminate; unfold next, step.
  - injection Hraised as <-. unfold openWindow.
    destruct (find_window (in_id window) (windows s)) as [e|] eqn:E.
    + assert (Hreg : In (in_id window) (List.map id (windows s))).
      { apply find_window_registered. now exists e. }
      destruct (isMinimized e); simpl.
      * destruct (raise_hit (in_id window) (topZIndex s + 1) _
                    (raise_restored_id _ _) (raise_restored_hit _ _)
                    (windows s) Hreg) as [w [Hw [Hid [_ Hf]]]]. eauto.
      * destruct (raise_hit (in_id window) (topZIndex s + 1) _
                    (raise_focused_id _ _) (raise_focused_hit _ _)
                    (windows s) Hreg) as [w [Hw [Hid [_ Hf]]]]. eauto.
    + simpl. exists (spawn window (topZIndex s + 1)). repeat split.
      apply in_or_app. right. now left.
  - destruct (find_window j (windows s)) as [e|] eqn:E; [|discriminate].
    injection Hraised as <-.
    assert (Hreg : In j (List.map id (windows s))).
    { apply find_window_registered. now exists e. }
    simpl. destruct (raise_hit j (topZIndex s + 1) _
                       (raise_restored_id _ _) (raise_restored_hit _ _)
                       (windows s) Hreg) as [w [Hw [Hid [_ Hf]]]]. eauto.
  - destruct (find_window j (windows s)) as [e|] eqn:E; [|discriminate].
    injection Hraised as <-.
    assert (Hreg : In j (List.map id (windows s))).
    { apply find_window_registered. now exists e. }
    simpl. destruct (raise_hit j (topZIndex s + 1) _
                       (raise_focused_id _ _) (raise_focused_hit _ _)
                       (windows s) Hreg) as [w [Hw [Hid [_ Hf]]]]. eauto.
Qed.

(** X4: right after an open, a restore or a focus that created or found
    its window, exactly one window is focused, and it is that window. *)
Theorem exactly_one_focused_after_raise s o i :
  reachable s -> raised o s = Some i ->
  focused_count (windows (next o s)) = 1%nat
  /\ forall w, In w (windows (next o s)) -> isFocused w = true -> id w = i.
Proof.
  intros Hr Hraised.
  assert (Hr' : reachable (next o s)) by (now apply reach_next).
  pose proof (reachable_when_well_stacked _ _ Hr') as Hws'.
  destruct (raised_is_focused o s i Hraised) as [w [Hw [Hid Hf]]]. split.
  - pose proof (ws_focus _ Hws'). pose proof (focused_count_pos _ w Hw Hf). lia.
  - intros w' Hw' Hf'.
    pose proof (reachable_focused_on_top _ Hr') as Htop.
    assert (E : zIndex w' = zIndex w).
    { rewrite (Htop w Hw Hf), (Htop w' Hw' Hf'). reflexivity. }
    rewrite (NoDup_map_inj zIndex _ w' w (ws_z _ Hws') Hw' Hw E). exact Hid.
Qed.

Lemma exactly_one_focused_after_raise_witness :
  focused_count (windows (next (Restore "a") (run opened_abc initial))) = 1%nat
  /\ forall w, In w (windows (next (Restore "a") (run opened_abc initial))) ->
                isFocused w = true -> id w = "a".
Proof.
  apply (exactly_one_focused_after_raise (run opened_abc initial)
           (Restore "a") "a").
  - apply run_reachable.
  - reflexivity.
Defined.

(** ** Minimize and the geometry updates *)

Lemma map_idempotent {A : Type} (f : A -> A) l :
  (forall a, f (f a) = f a) -> List.map f (List.map f l) = List.map f l.
Proof.
  intros H. rewrite List.map_map. apply List.map_ext. exact H.
Qed.

(** X5: [minimizeWindow] on a registered id sets [isMinimized] and clears
    [isFocused] on that window and changes nothing else: stacking values,
    the counter and every other window stay as they were, so no other
    window becomes focused. A second call changes nothing more. The call is
    reported with the id and the title of the window. *)
Theorem minimize_hides_and_unfocuses s i w :
  find_window i (windows s) = Some w ->
  let s' := next (Minimize i) s in
  Forall2 (fun a a' =>
             same_but_visibility a a'
             /\ if has_id i a
                then isMinimized a' = true /\ isFocused a' = false
                else isMinimized a' = isMinimized a
                     /\ isFocused a' = isFocused a)
          (windows s) (windows s')
  /\ topZIndex s' = topZIndex s
  /\ (focused_count (windows s') <= focused_count (windows s))%nat
  /\ next (Minimize i) s' = s'
  /\ emitted (Minimize i) s
     = [trackWindowMinimize i; logWindowMinimize i (title w)].
Proof.
  intros Hfind. cbv zeta. unfold emitted, next, step, minimizeWindow. simpl.
  repeat split.
  - apply Forall2_map_same. intros a. unfold same_but_visibility.
    destruct (has_id i a); simpl; repeat split; reflexivity.
  - apply neutral_focus. intros a. destruct (has_id i a); simpl; auto.
    discriminate.
  - f_equal. apply map_idempotent. intros a.
    destruct (has_id i a) eqn:E; [|now rewrite E].
    unfold has_id in *. simpl. now rewrite E.
  - rewrite Hfind. apply find_window_Some in Hfind.
    destruct Hfind as [_ ->]. reflexivity.
Qed.

Lemma minimize_hides_and_unfocuses_witness :
  Forall2 (fun a a' =>
             same_but_visibility a a'
             /\ if has_id "c" a
                then isMinimized a' = true /\ isFocused a' = false
                else isMinimized a' = isMinimized a
                     /\ isFocused a' = isFocused a)
          (windows (run opened_abc initial))
          (windows (next (Minimize "c") (run opened_abc initial)))
  /\ topZIndex (next (Minimize "c") (run opened_abc initial))
     = topZIndex (run opened_abc initial)
  /\ (focused_count (windows (next (Minimize "c") (run opened_abc initial)))
      <= focused_count (windows (run opened_abc initial)))%nat
  /\ next (Minimize "c") (next (Minimize "c") (run opened_abc initial))
     = next (Minimize "c") (run opened_abc initial)
  /\ emitted (Minimize "c") (run opened_abc initial)
     = [trackWindowMinimize "c"; logWindowMinimize "c" "Notes"].
Proof.
  apply (minimize_hides_and_unfocuses (run opened_abc initial) "c"
           (mkWindowState "c" "Notes" "notes" 40 60 640 480 103
                          false false true)).
  vm_compute. reflexivity.
Defined.

(** X6: of two [updateWindowPosition] calls on the same id the second one
    wins: the state is what the second call alone would have produced. A
    position update writes [x] and [y] of the windows carrying the id and
    nothing else, on any window. *)
Theorem position_last_write_wins s i x1 y1 x2 y2 :
  next (UpdatePosition i x2 y2) (next (UpdatePosition i x1 y1) s)
  = next (UpdatePosition i x2 y2) s
  /\ Forall2 (fun a a' =>
                same_but_position a a'
                /\ (x a', y a') = if has_id i a then (x2, y2) else (x a, y a))
             (windows s) (windows (next (UpdatePosition i x2 y2) s))
  /\ topZIndex (next (UpdatePosition i x2 y2) s) = topZIndex s.
Proof.
  unfold next, step, updateWindowPosition. simpl. repeat split.
  - f_equal. rewrite List.map_map. apply List.map_ext. intros a.
    destruct (has_id i a) eqn:E; [|now rewrite E].
    unfold has_id in *. simpl. now rewrite E.
  - apply Forall2_map_same. intros a. unfold same_but_position.
    destruct (has_id i a); simpl; repeat split; reflexivity.
Qed.

(** X7: a position update and a size update commute, whatever the two ids
    are: moving then resizing gives the same state as resizing then
    moving. *)
Theorem position_and_size_commute s i j x' y' width' height' :
  next (UpdateSize j width' height') (next (UpdatePosition i x' y') s)
  = next (UpdatePosition i x' y') (next (UpdateSize j width' height') s).
Proof.
  unfold next, step, updateWindowPosition, updateWindowSize. simpl.
  f_equal. rewrite !List.map_map. apply List.map_ext. intros a.
  destruct (has_id i a) eqn:Ei, (has_id j a) eqn:Ej;
    unfold has_id in *; simpl; rewrite ?Ei, ?Ej; reflexivity.
Qed.

(** ** Opening an id again *)

(** X8: on an id that is registered, [openWindow] moves the state exactly
    as [restoreWindow] does when the window found is minimized and exactly
    as [focusWindow] does when it is not; the argument's fields are not
    used and no open time is recorded. *)
Theorem open_existing_is_restore_or_focus s now window w :
  find_window (in_id window) (windows s) = Some w ->
  next (Open now window) s
  = (if isMinimized w then next (Restore (in_id window)) s
     else next (Focus (in_id window)) s)
  /\ windowOpenTimes (next (Open now window) s) = windowOpenTimes s.
Proof.
  intros Hfind. unfold next, step, openWindow, restoreWindow, focusWindow.
  rewrite Hfind. destruct (isMinimized w); simpl; split; reflexivity.
Qed.

Lemma open_existing_is_restore_or_focus_witness :
  next (Open 4000 (mkWindowInit "b" "Terminal" "shell" 0 0 100 100 true true))
       (run opened_abc initial)
  = (if isMinimized (mkWindowState "b" "Notes" "notes" 40 60 640 480 102
                                   false false false)
     then next (Restore "b") (run opened_abc initial)
     else next (Focus "b") (run opened_abc initial))
  /\ windowOpenTimes
       (next (Open 4000 (mkWindowInit "b" "Terminal" "shell" 0 0 100 100
                                      true true))
             (run opened_abc initial))
     = windowOpenTimes (run opened_abc initial).
Proof.
  apply (open_existing_is_restore_or_focus (run opened_abc initial) 4000
           (mkWindowInit "b" "Terminal" "shell" 0 0 100 100 true true)
           (mkWindowState "b" "Notes" "notes" 40 60 640 480 102
                          false false false)).
  vm_compute. reflexivity.
Defined.

Lemma find_window_app i l l' :
  find_window i (l ++ l')
  = match find_window i l with
    | Some w => Some w
    | None => find_window i l'
    end.
Proof.
  unfold find_window. induction l as [|a l IH]; simpl; [reflexivity|].
  destruct (has_id i a); auto.
Qed.


Lemma find_window_filter_same i l :
  find_window i (List.filter (fun w => negb (has_id i w)) l) = None.
Proof.
  apply find_window_None. intros Hin. apply in_map_iff in Hin.
  destruct Hin as [a [Ha Hin]]. apply filter_In in Hin.
  destruct Hin as [_ Hneg]. apply negb_true_iff, has_id_false in Hneg.
  contradiction.
Qed.

(** X9: closing an id and opening it again creates a brand-new record, made
    of the fields of the argument, focused, with the next stacking value
    and placed last; nothing of a record closed under that id is kept, and
    the call is reported as the opening of a new window. *)
Theorem reopen_after_close_is_fresh s now' now window :
  let s1 := next (Close now' (in_id window)) s in
  let s2 := next (Open now window) s1 in
  find_window (in_id window) (windows s2)
  = Some (spawn window (topZIndex s + 1))
  /\ windows s2
     = List.map (set_isFocused false) (windows s1)
       ++ [spawn window (topZIndex s + 1)]
  /\ windowOpenTimes s2 !! in_id window = Some now
  /\ emitted (Open now window) s1
     = [trackWindowOpen (in_id window);
        logWindowOpen (in_id window) (in_title window)].
Proof.
  cbv zeta.
  destruct (close_windows now' (in_id window) s) as [Hw Hz].
  assert (Hnone : find_window (in_id window)
                    (windows (next (Close now' (in_id window)) s)) = None).
  { rewrite Hw. apply find_window_filter_same. }
  set (s1 := next (Close now' (in_id window)) s) in *.
  assert (Hopen : step (Open now window) s1
                  = (mkState (List.map (set_isFocused false) (windows s1)
                              ++ [spawn window (topZIndex s + 1)])
                             (topZIndex s + 1)
                             (<[in_id window := now]> (windowOpenTimes s1)),
                     [trackWindowOpen (in_id window);
                      logWindowOpen (in_id window) (in_title window)])).
  { simpl. unfold openWindow. rewrite Hnone, Hz. reflexivity. }
  unfold emitted, next. rewrite Hopen. simpl. repeat split.
  - rewrite find_window_app, find_window_map by reflexivity.
    rewrite Hnone. simpl. unfold find_window. simpl.
    replace (has_id (in_id window) (spawn window (topZIndex s + 1)))
      with true by (symmetry; now apply has_id_true).
    reflexivity.
  - apply lookup_insert_eq.
Qed.

(** ** What [closeWindow] reports *)







(** ** What [maximizeWindow] reports *)

(** X11: the flag [maximizeWindow] reports (and so the breadcrumb's choice
    between "maximized" and "restored") is the value [isMaximized] has on
    that window once the call is done. *)
Theorem maximize_reports_the_new_flag s i w :
  find_window i (windows s) = Some w ->
  exists w', find_window i (windows (next (Maximize i) s)) = Some w'
             /\ emitted (Maximize i) s
                = [trackWindowMaximize i (isMaximized w');
                   logWindowMaximize i (title w') (isMaximized w')].
Proof.
  intros Hfind. unfold emitted, next, step, maximizeWindow. simpl.
  rewrite find_window_map, Hfind; [|intros a; now destruct (has_id i a)].
  simpl. eexists. split; [reflexivity|].
  apply find_window_Some in Hfind. destruct Hfind as [_ Hid].
  apply has_id_true in Hid. rewrite Hid. simpl.
  apply has_id_true in Hid. rewrite Hid. reflexivity.
Qed.

Lemma maximize_reports_the_new_flag_witness :
  exists w', find_window "b"
               (windows (next (Maximize "b") (run opened_abc initial)))
             = Some w'
             /\ emitted (Maximize "b") (run opened_abc initial)
                = [trackWindowMaximize "b" (isMaximized w');
                   logWindowMaximize "b" (title w') (isMaximized w')].
Proof.
  apply (maximize_reports_the_new_flag (run opened_abc initial) "b"
           (mkWindowState "b" "Notes" "notes" 40 60 640 480 102
                          false false false)).
  vm_compute. reflexivity.
Defined.

(** ** The number of active windows *)

Lemma active_count_cons a l :
  active_count (a :: l)
  = ((if isMinimized a then 0 else 1) + active_count l)%nat.
Proof. unfold active_count. simpl. now destruct (isMinimized a). Qed.

Lemma active_count_same (f : WindowState -> WindowState) l :
  (forall a, In a l -> isMinimized (f a) = isMinimized a) ->
  active_count (List.map f l) = active_count l.
Proof.
  induction l as [|a l IH]; simpl; intros H; [reflexivity|].
  rewrite !active_count_cons. rewrite H by now left.
  rewrite IH; [reflexivity|]. intros b Hb. apply H. now right.
Qed.

Lemma active_count_retarget (f : WindowState -> WindowState) i b l w :
  List.NoDup (List.map id l) ->
  find_window i l = Some w ->
  (forall a, has_id i a = true -> isMinimized (f a) = b) ->
  (forall a, has_id i a = false -> isMinimized (f a) = isMinimized a) ->
  (active_count (List.map f l) + (if isMinimized w then 0 else 1)
   = active_count l + (if b then 0 else 1))%nat.
Proof.
  intros Hnd Hfind Hhit Hmiss. revert Hnd Hfind. unfold find_window.
  induction l as [|a l IH]; simpl; intros Hnd Hfind; [discriminate|].
  inversion Hnd as [|? ? Hnotin Hnd']; subst.
  rewrite !active_count_cons. destruct (has_id i a) eqn:E.
  - injection Hfind as <-. rewrite (Hhit a E).
    rewrite active_count_same.
    + destruct b, (isMinimized a); lia.
    + intros c Hc. apply Hmiss. apply has_id_false. intros Hid.
      apply Hnotin. apply has_id_true in E. rewrite E, <- Hid.
      now apply in_map.
  - rewrite (Hmiss a E). specialize (IH Hnd' Hfind). lia.
Qed.

(** X12: in a reachable state, minimizing a visible window takes exactly
    one off the number of active (non-minimized) windows and restoring a
    minimized one adds exactly one; minimizing a minimized window or
    restoring a visible one leaves the number as it is, and so do focus and
    maximize. *)
Theorem active_count_follows_minimize_and_restore s i w :
  reachable s -> find_window i (windows s) = Some w ->
  (active_count (windows (next (Minimize i) s))
   + (if isMinimized w then 0 else 1) = active_count (windows s))%nat
  /\ (active_count (windows (next (Restore i) s))
      = active_count (windows s) + (if isMinimized w then 1 else 0))%nat
  /\ active_count (windows (next (Focus i) s)) = active_count (windows s)
  /\ active_count (windows (next (Maximize i) s)) = active_count (windows s).
Proof.
  intros Hr Hfind. pose proof (reachable_when_well_stacked _ _ Hr) as Hws.
  pose proof (ws_ids _ Hws) as Hnd. unfold next, step. simpl. repeat split.
  - pose proof (active_count_retarget
                  (fun a => if has_id i a
                            then set_isFocused false (set_isMinimized true a)
                            else a) i true (windows s) w Hnd Hfind) as H.
    rewrite H; [lia | |]; intros a E; now rewrite E.
  - pose proof (active_count_retarget
                  (raise_restored i (topZIndex s + 1)) i false (windows s) w
                  Hnd Hfind) as H.
    assert (H' : (active_count
                    (List.map (raise_restored i (topZIndex s + 1)) (windows s))
                  + (if isMinimized w then 0 else 1)
                  = active_count (windows s) + 1)%nat).
    { apply H; intros a E; unfold raise_restored; now rewrite E. }
    destruct (isMinimized w); lia.
  - apply active_count_same. intros a _. unfold raise_focused.
    now destruct (has_id i a).
  - apply active_count_same. intros a _. now destruct (has_id i a).
Qed.

Lemma active_count_follows_minimize_and_restore_witness :
  (active_count (windows (next (Minimize "b") (run opened_abc initial)))
   + (if isMinimized (mkWindowState "b" "Notes" "notes" 40 60 640 480 102
                                    false false false) then 0 else 1)
   = active_count (windows (run opened_abc initial)))%nat
  /\ (active_count (windows (next (Restore "b") (run opened_abc initial)))
      = active_count (windows (run opened_abc initial))
        + (if isMinimized (mkWindowState "b" "Notes" "notes" 40 60 640 480
                                         102 false false false)
           then 1 else 0))%nat
  /\ active_count (windows (next (Focus "b") (run opened_abc initial)))
     = active_count (windows (run opened_abc initial))
  /\ active_count (windows (next (Maximize "b") (run opened_abc initial)))
     = active_count (windows (run opened_abc initial)).
Proof.
  apply (active_count_follows_minimize_and_restore (run opened_abc initial)
           "b" (mkWindowState "b" "Notes" "notes" 40 60 640 480 102
                              false false false)).
  - apply run_reachable.
  - vm_compute. reflexivity.
Defined.

(** ** The desktop context attached to error reports *)

Lemma find_snapshot l :
  List.find snap_isFocused (List.map snapshot l)
  = option_map snapshot (List.find isFocused l).
Proof.
  induction l as [|a l IH]; simpl; [reflexivity|].
  destruct (isFocused a); auto.
Qed.

Lemma find_isFocused_None l :
  List.find isFocused l = None -> focused_count l = 0%nat.
Proof.
  unfold focused_count. induction l as [|a l IH]; simpl; [reflexivity|].
  destruct (isFocused a); [discriminate | exact IH].
Qed.

Lemma count_split_minimized l :
  length l
  = (active_count l + length (List.filter isMinimized l))%nat.
Proof.
  induction l as [|a l IH]; [reflexivity|].
  rewrite active_count_cons. simpl. destruct (isMinimized a); simpl; lia.
Qed.

(** X13: the desktop context [beforeSend] attaches, read from the copy of a
    reachable registry state: [focused_window] is the id of the topmost
    window (stacking value equal to the counter, all others strictly
    below) when some window is focused and is absent exactly when no
    window is focused; [active_windows] is the number of all registered
    windows, the minimized ones included. *)
Theorem beforeSend_reports_the_topmost_window s :
  reachable s ->
  fst (beforeSend_desktop (published s))
  = (active_count (windows s)
     + length (List.filter isMinimized (windows s)))%nat
  /\ match snd (beforeSend_desktop (published s)) with
     | Some i =>
         exists w, In w (windows s) /\ id w = i /\ isFocused w = true
                   /\ zIndex w = topZIndex s
                   /\ forall w', In w' (windows s) -> w' <> w ->
                                 zIndex w' < zIndex w
     | None => focused_count (windows s) = 0%nat
     end.
Proof.
  intros Hr. unfold beforeSend_desktop, published. simpl. split.
  - rewrite List.length_map. apply count_split_minimized.
  - rewrite find_snapshot.
    destruct (List.find isFocused (windows s)) as [w|] eqn:E; simpl.
    + apply find_some in E. destruct E as [Hw Hf].
      destruct (focused_window_is_topmost s w Hr Hw Hf) as [Hz Hothers].
      exists w. repeat split; auto. intros w' Hw' Hne.
      now destruct (Hothers w' Hw' Hne).
    + now apply find_isFocused_None.
Qed.

Lemma beforeSend_reports_the_topmost_window_witness :
  fst (beforeSend_desktop
         (published (run (opened_abc ++ [Minimize "a"]) initial)))
  = (active_count (windows (run (opened_abc ++ [Minimize "a"]) initial))
     + length (List.filter isMinimized
                 (windows (run (opened_abc ++ [Minimize "a"]) initial))))%nat
  /\ match snd (beforeSend_desktop
                  (published (run (opened_abc ++ [Minimize "a"]) initial)))
     with
     | Some i =>
         exists w,
           In w (windows (run (opened_abc ++ [Minimize "a"]) initial))
           /\ id w = i /\ isFocused w = true
           /\ zIndex w = topZIndex (run (opened_abc ++ [Minimize "a"]) initial)
           /\ forall w',
                In w' (windows (run (opened_abc ++ [Minimize "a"]) initial)) ->
                w' <> w -> zIndex w' < zIndex w
     | None =>
         focused_count (windows (run (opened_abc ++ [Minimize "a"]) initial))
         = 0%nat
     end.
Proof.
  apply (beforeSend_reports_the_topmost_window
           (run (opened_abc ++ [Minimize "a"]) initial)).
  apply run_reachable.
Defined.

(** * Properties of the observability helpers *)

(** ** Strings *)

Lemma length_append s1 s2 :
  String.length (s1 +:+ s2) = (String.length s1 + String.length s2)%nat.
Proof. induction s1 as [|c s1 IH]; simpl; auto. Qed.

Lemma append_assoc s1 s2 s3 : (s1 +:+ s2) +:+ s3 = s1 +:+ (s2 +:+ s3).
Proof.
  induction s1 as [|c s1 IH]; [reflexivity|].
  change (String c ((s1 +:+ s2) +:+ s3) = String c (s1 +:+ (s2 +:+ s3))).
  now f_equal.
Qed.

Lemma append_empty_r s : s +:+ "" = s.
Proof.
  induction s as [|c s IH]; [reflexivity|].
  change (String c (s +:+ "") = String c s). now f_equal.
Qed.

Lemma substring_head_length n s :
  String.length (String.substring 0 n s) = Nat.min n (String.length s).
Proof.
  revert s. induction n as [|n IH]; intros [|c s]; simpl; auto.
Qed.

Lemma substring_head_prefix n s :
  exists rest, s = String.substring 0 n s +:+ rest.
Proof.
  revert s. induction n as [|n IH]; intros [|c s]; simpl.
  - now exists "".
  - now exists (String c s).
  - now exists "".
  - destruct (IH s) as [rest Hrest]. exists rest.
    change (String c s = String c (String.substring 0 n s +:+ rest)).
    now f_equal.
Qed.

(** ** The chat breadcrumb *)

(** X14: the preview [logChatMessageSent] records is the message itself
    when it has at most 100 characters, and otherwise its first 100
    characters followed by three dots; the preview never has more than 103
    characters, and the length recorded is that of the whole message. *)
Theorem chat_preview_is_a_bounded_prefix (messageContent : string) :
  let sent := Breadcrumbs.logChatMessageSent messageContent in
  Breadcrumbs.message_length sent = String.length messageContent
  /\ (String.length (Breadcrumbs.message_preview sent) <= 103)%nat
  /\ ((String.length messageContent <= 100)%nat ->
      Breadcrumbs.message_preview sent = messageContent)
  /\ ((100 < String.length messageContent)%nat ->
      exists head rest,
        messageContent = head +:+ rest
        /\ String.length head = 100%nat
        /\ Breadcrumbs.message_preview sent = head +:+ "...").
Proof.
  cbv zeta. unfold Breadcrumbs.logChatMessageSent, Breadcrumbs.truncated.
  simpl Breadcrumbs.message_length. simpl Breadcrumbs.message_preview.
  destruct (Nat.ltb_spec 100 (String.length messageContent)) as [Hlong | Hshort].
  - repeat split.
    + rewrite length_append, substring_head_length.
      change (String.length "...") with 3%nat. lia.
    + intros H. lia.
    + intros _. destruct (substring_head_prefix 100 messageContent) as [rest H].
      exists (String.substring 0 100 messageContent), rest.
      repeat split; auto. rewrite substring_head_length. lia.
  - repeat split.
    + lia.
    + intros H. lia.
Qed.

(** ** The session context and the request tags *)

(** X15: [extractSessionContext] never yields an empty [user_agent] or
    [referer] and never an empty [session_id] or [user_id]: a header that
    is present but empty is treated like a missing one (the defaults
    "unknown" and "none", or no value at all); a non-empty header is
    passed on unchanged. *)
Theorem session_context_has_no_empty_field (get : string -> option string) :
  let c := SentryUtils.extractSessionContext get in
  SentryUtils.user_agent c <> ""
  /\ SentryUtils.referer c <> ""
  /\ SentryUtils.session_id c <> Some ""
  /\ SentryUtils.user_id c <> Some ""
  /\ (forall v, v <> "" ->
        (get "user-agent" = Some v -> SentryUtils.user_agent c = v)
        /\ (get "referer" = Some v -> SentryUtils.referer c = v)
        /\ (get "x-session-id" = Some v -> SentryUtils.session_id c = Some v)
        /\ (get "x-user-id" = Some v -> SentryUtils.user_id c = Some v))
  /\ (get "user-agent" = Some "" \/ get "user-agent" = None ->
      SentryUtils.user_agent c = "unknown")
  /\ (get "referer" = Some "" \/ get "referer" = None ->
      SentryUtils.referer c = "none")
  /\ (get "x-session-id" = Some "" \/ get "x-session-id" = None ->
      SentryUtils.session_id c = None)
  /\ (get "x-user-id" = Some "" \/ get "x-user-id" = None ->
      SentryUtils.user_id c = None).
Proof.
  cbv zeta. unfold SentryUtils.extractSessionContext. simpl.
  assert (Helse : forall v d, d <> "" -> SentryUtils.or_else v d <> "").
  { intros [s|] d Hd; simpl; auto.
    destruct (String.eqb_spec s ""); auto. }
  assert (Hundef : forall v, SentryUtils.or_undefined v <> Some "").
  { intros [s|]; simpl; [|discriminate].
    destruct (String.eqb_spec s ""); [discriminate | congruence]. }
  repeat split; auto; try (apply Helse; discriminate).
  - intros ->. simpl. destruct (String.eqb_spec v ""); congruence.
  - intros ->. simpl. destruct (String.eqb_spec v ""); congruence.
  - intros ->. simpl. destruct (String.eqb_spec v ""); congruence.
  - intros ->. simpl. destruct (String.eqb_spec v ""); congruence.
  - intros [-> | ->]; reflexivity.
  - intros [-> | ->]; reflexivity.
  - intros [-> | ->]; reflexivity.
  - intros [-> | ->]; reflexivity.
Qed.

Lemma tags_of_entries (requestId : string) (c : SentryUtils.SessionContext)
  (tags : gmap string string) :
  SentryUtils.user_agent c <> "" -> SentryUtils.referer c <> "" ->
  SentryUtils.session_id c <> Some "" -> SentryUtils.user_id c <> Some "" ->
  let tags' :=
    SentryUtils.setRequestContext requestId (SentryUtils.entries c) tags in
  tags' !! "request_id" = Some requestId
  /\ tags' !! "user_agent" = Some (SentryUtils.user_agent c)
  /\ tags' !! "referer" = Some (SentryUtils.referer c)
  /\ tags' !! "session_id"
     = match SentryUtils.session_id c with
       | Some v => Some v
       | None => tags !! "session_id"
       end
  /\ tags' !! "user_id"
     = match SentryUtils.user_id c with
       | Some v => Some v
       | None => tags !! "user_id"
       end
  /\ forall k, ~ In k ["request_id"; "user_agent"; "referer"; "session_id";
                       "user_id"] ->
               tags' !! k = tags !! k.
Proof.
  destruct c as [ua rf sid uid]. simpl. intros Hua Hrf Hsid Huid.
  unfold SentryUtils.setRequestContext, SentryUtils.entries. simpl.
  unfold SentryUtils.set_if_truthy. simpl.
  destruct (String.eqb_spec ua ""); [contradiction|].
  destruct (String.eqb_spec rf ""); [contradiction|].
  destruct sid as [sid|], uid as [uid|];
    try (destruct (String.eqb_spec sid ""); [subst; contradiction|]);
    try (destruct (String.eqb_spec uid ""); [subst; contradiction|]);
    repeat split;
    try (intros k Hk; simpl in Hk);
    repeat (rewrite lookup_insert_ne
              by first [discriminate | intros E; apply Hk; tauto]);
    try reflexivity; try (rewrite lookup_insert_eq; reflexivity).
Qed.

(** X16: [setRequestContext] applied to the session context, as the chat
    route does: afterwards the [request_id] tag is the request id and the
    [user_agent] and [referer] tags are those of the context; the
    [session_id] and [user_id] tags are set when the context has them and
    otherwise keep whatever value they had before the call; no other tag
    is touched. *)
Theorem request_tags_after_setRequestContext
  (requestId : string) (get : string -> option string)
  (tags : gmap string string) :
  let c := SentryUtils.extractSessionContext get in
  let tags' :=
    SentryUtils.setRequestContext requestId (SentryUtils.entries c) tags in
  tags' !! "request_id" = Some requestId
  /\ tags' !! "user_agent" = Some (SentryUtils.user_agent c)
  /\ tags' !! "referer" = Some (SentryUtils.referer c)
  /\ tags' !! "session_id"
     = match SentryUtils.session_id c with
       | Some v => Some v
       | None => tags !! "session_id"
       end
  /\ tags' !! "user_id"
     = match SentryUtils.user_id c with
       | Some v => Some v
       | None => tags !! "user_id"
       end
  /\ forall k, ~ In k ["request_id"; "user_agent"; "referer"; "session_id";
                       "user_id"] ->
               tags' !! k = tags !! k.
Proof.
  cbv zeta.
  destruct (session_context_has_no_empty_field get)
    as [Hua [Href [Hsid [Huid _]]]].
  exact (tags_of_entries requestId (SentryUtils.extractSessionContext get)
           tags Hua Href Hsid Huid).
Qed.

(** * Properties of the chat route *)

(** ** The prompt *)

Lemma lastUserMessage_snoc ms a :
  ChatRoute.lastUserMessage (ms ++ [a])
  = if ChatRoute.is_user a then Some a else ChatRoute.lastUserMessage ms.
Proof.
  unfold ChatRoute.lastUserMessage. rewrite List.filter_app. simpl.
  destruct (ChatRoute.is_user a).
  - rewrite List.map_app. simpl. apply List.last_last.
  - now rewrite app_nil_r.
Qed.

Lemma is_user_role m : ChatRoute.is_user m = true <-> ChatRoute.role m = "user".
Proof. unfold ChatRoute.is_user. apply String.eqb_eq. Qed.

Lemma is_user_not_role m :
  ChatRoute.is_user m = false <-> ChatRoute.role m <> "user".
Proof. unfold ChatRoute.is_user. apply String.eqb_neq. Qed.


Lemma lastUserMessage_Some ms m :
  ChatRoute.lastUserMessage ms = Some m ->
  exists before after,
    ms = before ++ m :: after /\ ChatRoute.role m = "user"
    /\ forall a, In a after -> ChatRoute.role a <> "user".
Proof.
  induction ms as [|a ms IH] using rev_ind.
  - discriminate.
  - rewrite lastUserMessage_snoc. destruct (ChatRoute.is_user a) eqn:E.
    + intros H. injection H as <-. exists ms, []. repeat split.
      * now apply is_user_role.
      * intros b [].
    + intros H. destruct (IH H) as [before [after [-> [Hrole Hafter]]]].
      exists before, (after ++ [a]). repeat split; auto.
      * now rewrite <- List.app_assoc.
      * intros b Hb. apply in_app_or in Hb.
        destruct Hb as [Hb | [<- | []]]; [now apply Hafter|].
        now apply is_user_not_role.
Qed.



Lemma read_elements_map messages :
  ChatRoute.read_elements (List.map ChatRoute.element messages)
  = Some messages.
Proof.
  induction messages as [|m ms IH]; simpl; [reflexivity | now rewrite IH].
Qed.


Lemma line_not_empty m : exists c rest, ChatRoute.line m = String c rest.
Proof.
  unfold ChatRoute.line. destruct (ChatRoute.is_user m); eexists; eexists;
    reflexivity.
Qed.

Lemma concat_lines_not_empty sep m ms :
  String.concat sep (List.map ChatRoute.line (m :: ms)) <> "".
Proof.
  destruct (line_not_empty m) as [c [rest H]]. simpl.
  destruct (List.map ChatRoute.line ms); rewrite H; discriminate.
Qed.

Lemma context_empty_iff ms :
  String.eqb (ChatRoute.conversationContext ms) "" = negb (Nat.leb 2 (length ms)).
Proof.
  unfold ChatRoute.conversationContext.
  destruct ms as [|a [|b ms]]; try reflexivity.
  change (length (a :: b :: ms)) with (S (S (length ms))).
  change (Nat.leb 2 (S (S (length ms)))) with true. simpl negb.
  apply String.eqb_neq.
  change (List.removelast (a :: b :: ms)) with (a :: List.removelast (b :: ms)).
  apply concat_lines_not_empty.
Qed.

(** X18: when the route starts a stream, the prompt begins with the system
    prompt and ends with a blank line followed by [User: ] and the content
    of the last message whose role is "user" (no message after it has that
    role); the [has_context] tag is true exactly when [messages] has at
    least two elements. *)
Theorem prompt_ends_with_last_user_message
  (messages : list ChatRoute.MessageInput) (m : ChatRoute.MessageInput) :
  ChatRoute.lastUserMessage messages = Some m ->
  (exists middle,
     ChatRoute.POST (ChatRoute.json (Some messages))
     = ChatRoute.stream
         (ChatRoute.SYSTEM_PROMPT +:+ middle +:+ ChatRoute.nl +:+ ChatRoute.nl
          +:+ "User: " +:+ ChatRoute.content m)
         (Nat.leb 2 (length messages)))
  /\ exists before after,
       messages = before ++ m :: after /\ ChatRoute.role m = "user"
       /\ forall a, In a after -> ChatRoute.role a <> "user".
Proof.
  intros Hlast. split; [|now apply lastUserMessage_Some].
  unfold ChatRoute.POST, ChatRoute.fullPrompt. rewrite Hlast.
  rewrite context_empty_iff, negb_involutive.
  destruct (Nat.leb 2 (length messages)); simpl negb; cbv iota.
  - exists (ChatRoute.nl +:+ ChatRoute.nl +:+ "Previous conversation:"
            +:+ ChatRoute.nl +:+ ChatRoute.conversationContext messages).
    reflexivity.
  - now exists "".
Qed.

Lemma prompt_ends_with_last_user_message_witness :
  (exists middle,
     ChatRoute.POST
       (ChatRoute.json
          (Some [ChatRoute.mkMessageInput "user" "hello";
                 ChatRoute.mkMessageInput "assistant" "hi";
                 ChatRoute.mkMessageInput "user" "what time is it"]))
     = ChatRoute.stream
         (ChatRoute.SYSTEM_PROMPT +:+ middle +:+ ChatRoute.nl +:+ ChatRoute.nl
          +:+ "User: "
          +:+ ChatRoute.content
                (ChatRoute.mkMessageInput "user" "what time is it"))
         (Nat.leb 2 (length [ChatRoute.mkMessageInput "user" "hello";
                             ChatRoute.mkMessageInput "assistant" "hi";
                             ChatRoute.mkMessageInput "user"
                                                      "what time is it"])))
  /\ exists before after,
       [ChatRoute.mkMessageInput "user" "hello";
        ChatRoute.mkMessageInput "assistant" "hi";
        ChatRoute.mkMessageInput "user" "what time is it"]
       = before ++ ChatRoute.mkMessageInput "user" "what time is it" :: after
       /\ ChatRoute.role (ChatRoute.mkMessageInput "user" "what time is it")
          = "user"
       /\ forall a, In a after -> ChatRoute.role a <> "user".
Proof.
  apply (prompt_ends_with_last_user_message
           [ChatRoute.mkMessageInput "user" "hello";
            ChatRoute.mkMessageInput "assistant" "hi";
            ChatRoute.mkMessageInput "user" "what time is it"]
           (ChatRoute.mkMessageInput "user" "what time is it")).
  reflexivity.
Defined.

(** X19: the last element of [messages] is never part of the conversation
    context, whatever its role: the context is made of the lines of the
    messages before it (and is empty for an empty array). When the last
    element is a user message, it is the message of the closing [User: ]
    line. When it is not, its content does not reach the prompt at all:
    the last user message is the one of the messages before it, which then
    appears in the context and once more as the closing line, and
    replacing the last element by any other non-user message gives the
    same outcome. *)
Theorem trailing_reply_is_left_out
  (ms : list ChatRoute.MessageInput) (a : ChatRoute.MessageInput) :
  ChatRoute.conversationContext (ms ++ [a])
  = String.concat (ChatRoute.nl +:+ ChatRoute.nl)
                  (List.map ChatRoute.line ms)
  /\ ChatRoute.conversationContext [] = ""
  /\ (ChatRoute.role a = "user" ->
      ChatRoute.lastUserMessage (ms ++ [a]) = Some a)
  /\ (ChatRoute.role a <> "user" ->
      ChatRoute.lastUserMessage (ms ++ [a]) = ChatRoute.lastUserMessage ms
      /\ forall a', ChatRoute.role a' <> "user" ->
                    ChatRoute.POST (ChatRoute.json (Some (ms ++ [a])))
                    = ChatRoute.POST (ChatRoute.json (Some (ms ++ [a'])))).
Proof.
  assert (Hctx : forall b, ChatRoute.conversationContext (ms ++ [b])
                 = String.concat (ChatRoute.nl +:+ ChatRoute.nl)
                                 (List.map ChatRoute.line ms)).
  { intros b. unfold ChatRoute.conversationContext.
    now rewrite List.removelast_last. }
  split; [apply Hctx|]. split; [reflexivity|]. split.
  - intros Ha. apply is_user_role in Ha.
    now rewrite lastUserMessage_snoc, Ha.
  - intros Ha. apply is_user_not_role in Ha. split.
    + now rewrite lastUserMessage_snoc, Ha.
    + intros a' Ha'. apply is_user_not_role in Ha'.
      unfold ChatRoute.POST, ChatRoute.fullPrompt.
      rewrite !lastUserMessage_snoc, Ha, Ha', !Hctx. reflexivity.
Qed.

Lemma trailing_reply_is_left_out_witness :
  ChatRoute.lastUserMessage
    ([ChatRoute.mkMessageInput "user" "hello";
      ChatRoute.mkMessageInput "assistant" "hi"]
     ++ [ChatRoute.mkMessageInput "user" "what time is it"])
  = Some (ChatRoute.mkMessageInput "user" "what time is it")
  /\ ChatRoute.POST
       (ChatRoute.json (Some ([ChatRoute.mkMessageInput "user" "hello"]
                              ++ [ChatRoute.mkMessageInput "assistant" "hi"])))
     = ChatRoute.POST
         (ChatRoute.json (Some ([ChatRoute.mkMessageInput "user" "hello"]
                                ++ [ChatRoute.mkMessageInput "system" "bye"]))).
Proof.
  split.
  - apply (proj1 (proj2 (proj2 (trailing_reply_is_left_out
             [ChatRoute.mkMessageInput "user" "hello";
              ChatRoute.mkMessageInput "assistant" "hi"]
             (ChatRoute.mkMessageInput "user" "what time is it"))))).
    reflexivity.
  - apply (proj2 (proj2 (proj2 (trailing_reply_is_left_out
             [ChatRoute.mkMessageInput "user" "hello"]
             (ChatRoute.mkMessageInput "assistant" "hi"))))).
    + simpl. discriminate.
    + simpl. discriminate.
Defined.

(** ** The stream handler: the table of tool executions *)





Lemma with_tools_same st :
  ChatRoute.with_tools (ChatRoute.toolExecutions st) st = st.
Proof. now destruct st. Qed.

(** The inner loop over the content blocks of one assistant message. *)
Lemma on_blocks now blocks acc :
  fold_left (ChatRoute.on_block now) blocks acc
  = (ChatRoute.with_tools
       (fold_left (fun t n =>
                     ChatRoute.map_set n (ChatRoute.mkToolState now None) t)
                  (ChatRoute.tool_names blocks)
                  (ChatRoute.toolExecutions (ChatRoute.state_of acc)))
       (ChatRoute.state_of acc),
     ChatRoute.frames_of acc
     ++ List.map ChatRoute.tool_start_frame (ChatRoute.tool_names blocks),
     ChatRoute.signals_of acc
     ++ flat_map (fun block =>
                    match block with
                    | ChatRoute.tool_use n i =>
                        [ChatRoute.tool_started_log n i;
                         ChatRoute.tool_executions_metric n]
                    | ChatRoute.other_block => []
                    end) blocks).
Proof.
  revert acc. induction blocks as [|block blocks IH]; intros [[st fr] sg].
  - simpl. unfold ChatRoute.state_of. simpl.
    now rewrite with_tools_same, !app_nil_r.
  - destruct block as [n i|]; simpl fold_left; rewrite IH.
    + unfold ChatRoute.state_of, ChatRoute.frames_of, ChatRoute.signals_of.
      simpl. now rewrite <- !List.app_assoc.
    + reflexivity.
Qed.

Lemma consume_cons now message rest st :
  ChatRoute.consume ((now, message) :: rest) st
  = (ChatRoute.state_of
       (ChatRoute.consume rest
          (ChatRoute.state_of (ChatRoute.on_message now message st))),
     ChatRoute.frames_of (ChatRoute.on_message now message st)
     ++ ChatRoute.frames_of
          (ChatRoute.consume rest
             (ChatRoute.state_of (ChatRoute.on_message now message st))),
     ChatRoute.signals_of (ChatRoute.on_message now message st)
     ++ ChatRoute.signals_of
          (ChatRoute.consume rest
             (ChatRoute.state_of (ChatRoute.on_message now message st)))).
Proof.
  simpl. destruct (ChatRoute.on_message now message st) as [[st1 f1] s1].
  unfold ChatRoute.state_of at 2 3 4. simpl fst.
  destruct (ChatRoute.consume rest st1) as [[st2 f2] s2]. reflexivity.
Qed.

Lemma start_stream_parts messages ending st :
  ChatRoute.state_of (ChatRoute.start_stream messages ending st)
  = ChatRoute.state_of (ChatRoute.consume messages st)
  /\ ChatRoute.frames_of (ChatRoute.start_stream messages ending st)
     = ChatRoute.frames_of (ChatRoute.consume messages st)
       ++ [ChatRoute.closing_frame ending]
  /\ forall g, In g (ChatRoute.signals_of
                       (ChatRoute.start_stream messages ending st)) ->
               In g (ChatRoute.signals_of (ChatRoute.consume messages st))
               \/ (exists e, ending = ChatRoute.thrown e
                             /\ In g [ChatRoute.stream_error_log e;
                                      ChatRoute.exception_captured "stream";
                                      ChatRoute.chat_errors_metric
                                        "stream_error"]).
Proof.
  unfold ChatRoute.start_stream.
  destruct (ChatRoute.consume messages st) as [[st' fr] sg].
  destruct ending as [|e]; simpl; repeat split; auto.
  intros g Hg. unfold ChatRoute.signals_of in Hg. simpl in Hg.
  apply in_app_or in Hg. destruct Hg as [Hg | Hg]; [now left|].
  right. exists e. auto.
Qed.

(** ** The stream handler: counters and frames *)

Lemma tool_start_frames_plain names :
  List.filter ChatRoute.is_text_frame
    (List.map ChatRoute.tool_start_frame names) = []
  /\ List.filter ChatRoute.is_done_frame
       (List.map ChatRoute.tool_start_frame names) = []
  /\ ~ In ChatRoute.DONE_marker (List.map ChatRoute.tool_start_frame names).
Proof.
  induction names as [|n names [IH1 [IH2 IH3]]]; simpl; repeat split; auto.
  intros [H | H]; [discriminate | contradiction].
Qed.

Lemma block_signals_plain blocks g :
  In g (flat_map (fun block =>
                    match block with
                    | ChatRoute.tool_use n i =>
                        [ChatRoute.tool_started_log n i;
                         ChatRoute.tool_executions_metric n]
                    | ChatRoute.other_block => []
                    end) blocks) ->
  exists n i, g = ChatRoute.tool_started_log n i
              \/ g = ChatRoute.tool_executions_metric n.
Proof.
  intros H. apply in_flat_map in H. destruct H as [[n i|] [_ H]]; simpl in H.
  - exists n, i. intuition.
  - contradiction.
Qed.

Lemma on_message_counts now message st :
  let h := ChatRoute.on_message now message st in
  (ChatRoute.turnCount (ChatRoute.state_of h) = ChatRoute.turnCount st
   /\ ChatRoute.tokenUsage (ChatRoute.state_of h) = ChatRoute.tokenUsage st)
  /\ ChatRoute.streamedChunks (ChatRoute.state_of h)
     = ChatRoute.streamedChunks st
       + Z.of_nat (length (List.filter ChatRoute.is_text_delta
                             [(now, message)]))
  /\ length (List.filter ChatRoute.is_text_frame (ChatRoute.frames_of h))
     = length (List.filter ChatRoute.is_text_delta [(now, message)])
  /\ length (List.filter ChatRoute.is_done_frame (ChatRoute.frames_of h))
     = length (List.filter ChatRoute.is_success [(now, message)])
  /\ ~ In ChatRoute.DONE_marker (ChatRoute.frames_of h)
  /\ forall d t c tools,
       In (ChatRoute.completed_log d t c tools) (ChatRoute.signals_of h) ->
       t = ChatRoute.turnCount st.
Proof.
  cbv zeta.
  destruct message as [[[[text|]|]|]|[blocks|]|n e|sub|];
    unfold ChatRoute.on_message;
    try (unfold ChatRoute.state_of, ChatRoute.frames_of, ChatRoute.signals_of;
         simpl; repeat split; auto; try lia;
         try (intros [H | H]; [discriminate | contradiction]);
         intros d t c tools []; fail).
  - rewrite on_blocks.
    unfold ChatRoute.state_of, ChatRoute.frames_of, ChatRoute.signals_of.
    simpl.
    destruct (tool_start_frames_plain (ChatRoute.tool_names blocks))
      as [H1 [H2 H3]].
    rewrite H1, H2. repeat split; auto; try lia.
    intros d t c tools H. apply block_signals_plain in H.
    destruct H as [n [i [H | H]]]; discriminate.
  - destruct (ChatRoute.map_get n (ChatRoute.toolExecutions st)) as [ts|];
      unfold ChatRoute.state_of, ChatRoute.frames_of, ChatRoute.signals_of;
      simpl; repeat split; auto; try lia;
      try (intros [H | H]; [discriminate | contradiction]).
    intros d t c tools [H | []]. discriminate.
  - unfold ChatRoute.is_success. simpl.
    destruct (String.eqb sub "success");
      unfold ChatRoute.state_of, ChatRoute.frames_of, ChatRoute.signals_of;
      simpl; repeat split; auto; try lia;
      try (intros [H | H]; [discriminate | contradiction]).
    + intros d t c tools [H | [H | [H | []]]]; try discriminate. congruence.
    + intros d t c tools [H | [H | []]]; discriminate.
Qed.

Lemma filter_length_cons {A : Type} (p : A -> bool) a l :
  length (List.filter p (a :: l))
  = (length (List.filter p [a]) + length (List.filter p l))%nat.
Proof. simpl. destruct (p a); reflexivity. Qed.

Lemma consume_counts messages :
  forall st,
  let h := ChatRoute.consume messages st in
  (ChatRoute.turnCount (ChatRoute.state_of h) = ChatRoute.turnCount st
   /\ ChatRoute.tokenUsage (ChatRoute.state_of h) = ChatRoute.tokenUsage st)
  /\ ChatRoute.streamedChunks (ChatRoute.state_of h)
     = ChatRoute.streamedChunks st
       + Z.of_nat (length (List.filter ChatRoute.is_text_delta messages))
  /\ length (List.filter ChatRoute.is_text_frame (ChatRoute.frames_of h))
     = length (List.filter ChatRoute.is_text_delta messages)
  /\ length (List.filter ChatRoute.is_done_frame (ChatRoute.frames_of h))
     = length (List.filter ChatRoute.is_success messages)
  /\ ~ In ChatRoute.DONE_marker (ChatRoute.frames_of h)
  /\ forall d t c tools,
       In (ChatRoute.completed_log d t c tools) (ChatRoute.signals_of h) ->
       t = ChatRoute.turnCount st.
Proof.
  cbv zeta. induction messages as [|[now message] rest IH]; intros st.
  - unfold ChatRoute.state_of, ChatRoute.frames_of, ChatRoute.signals_of.
    simpl. repeat split; auto; try lia.
  - rewrite consume_cons.
    destruct (on_message_counts now message st)
      as [[Ht1 Hu1] [Hc1 [Hf1 [Hd1 [Hm1 Hl1]]]]].
    destruct (IH (ChatRoute.state_of (ChatRoute.on_message now message st)))
      as [[Ht2 Hu2] [Hc2 [Hf2 [Hd2 [Hm2 Hl2]]]]].
    set (h1 := ChatRoute.on_message now message st) in *.
    set (h2 := ChatRoute.consume rest (ChatRoute.state_of h1)) in *.
    unfold ChatRoute.state_of, ChatRoute.frames_of, ChatRoute.signals_of in *.
    simpl fst in *. simpl snd in *.
    rewrite !List.filter_app, !List.length_app.
    rewrite (filter_length_cons ChatRoute.is_text_delta),
            (filter_length_cons ChatRoute.is_success).
    split; [split; congruence|].
    split; [lia|]. split; [lia|]. split; [lia|]. split.
    + intros Hin. apply in_app_or in Hin. tauto.
    + intros d t c tools Hin. apply in_app_or in Hin.
      destruct Hin as [Hin | Hin]; [now apply (Hl1 d t c tools)|].
      rewrite (Hl2 d t c tools Hin). exact Ht1.
Qed.


(** X21: the handler never changes [turnCount] or [tokenUsage]: whatever
    the query yields, both are still zero when the stream is over, and
    every "Chat request completed" log carries a turn count of 0. *)
Theorem turn_count_is_never_advanced
  (messages : list (Z * ChatRoute.SDKMessage)) (ending : ChatRoute.Ending)
  (requestId : string) (startTime : Z) :
  let h := ChatRoute.start_stream messages ending
             (ChatRoute.new_request requestId startTime) in
  ChatRoute.turnCount (ChatRoute.state_of h) = 0
  /\ ChatRoute.tokenUsage (ChatRoute.state_of h) = (0, 0, 0)
  /\ forall d t c tools,
       In (ChatRoute.completed_log d t c tools) (ChatRoute.signals_of h) ->
       t = 0.
Proof.
  cbv zeta.
  destruct (start_stream_parts messages ending
              (ChatRoute.new_request requestId startTime)) as [Hs [_ Hg]].
  destruct (consume_counts messages (ChatRoute.new_request requestId startTime))
    as [[Ht Hu] [_ [_ [_ [_ Hl]]]]].
  rewrite Hs. repeat split; auto.
  intros d t c tools Hin. destruct (Hg _ Hin) as [H | [e [_ H]]].
  - exact (Hl d t c tools H).
  - simpl in H. destruct H as [H | [H | [H | []]]]; discriminate.
Qed.

Lemma on_message_no_closing_frame now message st f :
  In f (ChatRoute.frames_of (ChatRoute.on_message now message st)) ->
  ChatRoute.is_closing_frame f = false.
Proof.
  destruct message as [[[[text|]|]|]|[blocks|]|n e|sub|];
    unfold ChatRoute.on_message.
  - intros [<- | []]. reflexivity.
  - intros [].
  - intros [].
  - intros [].
  - rewrite on_blocks. unfold ChatRoute.frames_of. simpl.
    intros H. apply in_map_iff in H. destruct H as [n [<- _]]. reflexivity.
  - intros [].
  - destruct (ChatRoute.map_get n (ChatRoute.toolExecutions st)) as [ts|];
      intros [<- | []]; reflexivity.
  - destruct (String.eqb sub "success"); intros [<- | []]; reflexivity.
  - intros [].
Qed.

Lemma consume_no_closing_frame messages :
  forall st f,
    In f (ChatRoute.frames_of (ChatRoute.consume messages st)) ->
    ChatRoute.is_closing_frame f = false.
Proof.
  induction messages as [|[now message] rest IH]; intros st f.
  - intros [].
  - rewrite consume_cons. unfold ChatRoute.frames_of at 1. simpl.
    intros H. apply in_app_or in H. destruct H as [H | H].
    + exact (on_message_no_closing_frame now message st f H).
    + exact (IH _ f H).
Qed.

Lemma filter_none {A : Type} (p : A -> bool) l :
  (forall a, In a l -> p a = false) -> List.filter p l = [].
Proof.
  induction l as [|a l IH]; simpl; intros H; [reflexivity|].
  rewrite (H a) by now left. apply IH. intros b Hb. apply H. now right.
Qed.

(** X22: as long as [controller.enqueue] does not fail, every stream is
    closed by exactly one closing frame, which comes last: the [DONE]
    marker when the query ran to its end, the error frame "Stream error
    occurred" when it threw. No frame before it is a closing frame (neither
    the marker nor that error frame), so the whole stream holds exactly
    one. The frames before it hold one [done] frame per successful result
    message. *)
Theorem stream_ends_with_one_closing_frame
  (messages : list (Z * ChatRoute.SDKMessage)) (ending : ChatRoute.Ending)
  (st : ChatRoute.RequestState) :
  exists body,
    ChatRoute.frames_of (ChatRoute.start_stream messages ending st)
    = body ++ [ChatRoute.closing_frame ending]
    /\ (forall f, In f body -> ChatRoute.is_closing_frame f = false)
    /\ ~ In ChatRoute.DONE_marker body
    /\ ~ In (ChatRoute.error_frame "Stream error occurred") body
    /\ length (List.filter ChatRoute.is_closing_frame
                 (ChatRoute.frames_of
                    (ChatRoute.start_stream messages ending st))) = 1%nat
    /\ length (List.filter ChatRoute.is_done_frame body)
       = length (List.filter ChatRoute.is_success messages)
    /\ (ChatRoute.closing_frame ending = ChatRoute.DONE_marker
        <-> ending = ChatRoute.exhausted)
    /\ (ChatRoute.closing_frame ending
        = ChatRoute.error_frame "Stream error occurred"
        <-> exists e, ending = ChatRoute.thrown e).
Proof.
  destruct (start_stream_parts messages ending st) as [_ [Hf _]].
  destruct (consume_counts messages st) as [_ [_ [_ [Hd [Hm _]]]]].
  pose proof (consume_no_closing_frame messages st) as Hplain.
  exists (ChatRoute.frames_of (ChatRoute.consume messages st)).
  split; [exact Hf|]. split; [exact Hplain|]. split; [exact Hm|]. split.
  { intros H. apply Hplain in H. discriminate H. }
  split.
  { rewrite Hf, List.filter_app, (filter_none _ _ Hplain).
    destruct ending; reflexivity. }
  split; [exact Hd|]. split.
  - split; [destruct ending; [reflexivity | discriminate] | now intros ->].
  - split.
    + destruct ending as [|e]; [discriminate | now exists e].
    + intros [e ->]. reflexivity.
Qed.

(** ** The stream handler: tools *)









